(** * dam: draining an iCloud Photos library into Immich

    A shallow embedding of the batching, export-and-upload pipeline
    ([drain_icloud.py]) and of the three leaf components it relies on
    ([utils/exif_utils.py], [utils/tracker.py], [utils/immich_client.py]),
    followed by the properties of the specification that concern them.

    Conventions.  Python [int] is [Z]; [str] is [string] (file names are
    taken to be ASCII, so [str.lower] only moves [A]-[Z]; outside ASCII
    Python lowers only the Kelvin sign and the dotted capital I to ASCII
    letters, [k] and [i], which no extension table entry of interest
    here contains); [None]-able attributes are [option]; [set[str]] is
    [gset string]; the SQLite table is the list of its rows.  Everything the program obtains from outside
    (the file system, the osxphotos tool, the Immich server, the clock) is
    read from explicit oracles, and every exception the program catches is
    a possible answer of these oracles. *)

From Stdlib Require Import ZArith String Ascii DecimalString.
From stdpp Require Import base gmap sets list strings.

Local Open Scope string_scope.
Local Open Scope nat_scope.
Local Open Scope list_scope.

(* ===================================================================== *)
(** ** utils/exif_utils.py : the classifier                              *)
(* ===================================================================== *)

Module ExifUtils.

Definition PHOTO_EXTENSIONS : gset string :=
  list_to_set
    [ ".jpg"; ".jpeg"; ".png"; ".gif"; ".webp"; ".heic"; ".heif"; ".tiff";
      ".tif"; ".bmp"; ".raw"; ".dng"; ".cr2"; ".nef"; ".arw" ].

Definition VIDEO_EXTENSIONS : gset string :=
  list_to_set [ ".mp4"; ".mov"; ".avi"; ".mkv"; ".webm"; ".m4v"; ".3gp" ].

Definition SKIP_EXTENSIONS : gset string :=
  list_to_set [ ".thm"; ".scr"; ".lrf" ].

(** [c.lower()] on one ASCII character. *)
Definition lower_char (c : ascii) : ascii :=
  let n := nat_of_ascii c in
  if (65 <=? n)%nat && (n <=? 90)%nat then ascii_of_nat (n + 32) else c.

(** [s.lower()] *)
Fixpoint lower (s : string) : string :=
  match s with
  | EmptyString => EmptyString
  | String c s' => String (lower_char c) (lower s')
  end.

Definition is_dot (c : ascii) : bool := Ascii.eqb c ".".

(** ["." in s] *)
Fixpoint contains_dot (s : string) : bool :=
  match s with
  | EmptyString => false
  | String c s' => is_dot c || contains_dot s'
  end.

(** [s.rsplit(".", 1)[-1]]: what follows the last dot, the whole string
    when there is none. *)
Fixpoint rsplit_last (s : string) : string :=
  match s with
  | EmptyString => EmptyString
  | String c s' =>
      if contains_dot s' then rsplit_last s'
      else if is_dot c then s' else s
  end.

Definition _get_extension (filename : string) : string :=
  if contains_dot filename then "." +:+ lower (rsplit_last filename) else "".

Definition get_media_type (filename : string) : option string :=
  let ext := _get_extension filename in
  if bool_decide (ext ∈ SKIP_EXTENSIONS) then None
  else if bool_decide (ext ∈ PHOTO_EXTENSIONS) then Some "photo"
  else if bool_decide (ext ∈ VIDEO_EXTENSIONS) then Some "video"
  else None.

Definition should_skip_file (filename : string) : bool :=
  let ext := _get_extension filename in
  bool_decide (ext ∈ SKIP_EXTENSIONS).

(** The specification's wording of a junk file name, independent of how
    the code finds the extension: the name ends in [.thm], [.scr] or
    [.lrf], in any mixture of cases. *)
Definition has_junk_extension (filename : string) : Prop :=
  ∃ stem ext : string,
    filename = stem +:+ ext ∧ lower ext ∈ [ ".thm"; ".scr"; ".lrf" ].

End ExifUtils.

(* ===================================================================== *)
(** ** Values shared by the components                                   *)
(* ===================================================================== *)

(** Python's [datetime]: the constructor rejects out-of-range fields, so
    the type carries the range check ([MINYEAR = 1], [MAXYEAR = 9999]). *)
Module Datetime.

Definition in_range (lo hi n : Z) : bool := ((lo <=? n) && (n <=? hi))%Z.

Definition valid_fields (y mo d h mi s : Z) : bool :=
  in_range 1 9999 y && in_range 1 12 mo && in_range 1 31 d &&
  in_range 0 23 h && in_range 0 59 mi && in_range 0 59 s.

Record datetime := mk_datetime {
  year : Z; month : Z; day : Z; hour : Z; minute : Z; second : Z;
  tzinfo : option Z;   (* UTC offset in minutes; [None] for a naive value *)
  fields_ok : valid_fields year month day hour minute second = true
}.

(** [dt.replace(tzinfo=tz)] *)
Definition replace_tzinfo (dt : datetime) (tz : option Z) : datetime :=
  mk_datetime (year dt) (month dt) (day dt) (hour dt) (minute dt)
              (second dt) tz (fields_ok dt).

(** [str(n)] for an integer. *)
Definition decimal (n : Z) : string :=
  DecimalString.NilZero.string_of_int (Z.to_int n).

Fixpoint zeros (n : nat) : string :=
  match n with O => "" | S n' => String "0" (zeros n') end.

(** Zero padding on the left up to [width] characters. *)
Definition zero_pad (width : nat) (s : string) : string :=
  zeros (width - String.length s) +:+ s.

(** One conversion directive of [strftime].  [%Y] is the year "with
    century", four digits as the Python documentation shows it
    ([0001] ... [9999]) and as the C library of macOS, where the program
    runs, prints it. *)
Definition directive (dt : datetime) (c : ascii) : string :=
  if Ascii.eqb c "Y" then zero_pad 4 (decimal (year dt))
  else if Ascii.eqb c "m" then zero_pad 2 (decimal (month dt))
  else if Ascii.eqb c "d" then zero_pad 2 (decimal (day dt))
  else if Ascii.eqb c "H" then zero_pad 2 (decimal (hour dt))
  else if Ascii.eqb c "M" then zero_pad 2 (decimal (minute dt))
  else if Ascii.eqb c "S" then zero_pad 2 (decimal (second dt))
  else String "%" (String c "").

(** [dt.strftime(fmt)], for the directives the program uses. *)
Fixpoint strftime (dt : datetime) (fmt : string) : string :=
  match fmt with
  | EmptyString => EmptyString
  | String c EmptyString => fmt
  | String c (String c' rest as tail) =>
      if Ascii.eqb c "%" then directive dt c' +:+ strftime dt rest
      else String c (strftime dt tail)
  end.

Definition is_digit (c : ascii) : bool :=
  let n := nat_of_ascii c in (48 <=? n)%nat && (n <=? 57)%nat.

(** [s] has the shape of [template], where [#] stands for one decimal
    digit and every other character for itself. *)
Fixpoint has_shape (template s : string) : bool :=
  match template, s with
  | EmptyString, EmptyString => true
  | String t template', String c s' =>
      (if Ascii.eqb t "#" then is_digit c else Ascii.eqb t c)
      && has_shape template' s'
  | _, _ => false
  end.

(** ISO 8601 with milliseconds and the UTC suffix. *)
Definition iso8601_ms_utc (s : string) : bool :=
  has_shape "####-##-##T##:##:##.000Z" s.

End Datetime.

Import Datetime.

(** What the program reads of an osxphotos [PhotoInfo]. *)
Record PhotoInfo := mk_photo {
  uuid : string;
  original_filename : option string;
  path : option string;
  original_filesize : option Z;
  isphoto : bool;
  date : option datetime;
  date_modified : option datetime
}.

(** Python truthiness of the values the program tests. *)
Definition truthy_str (s : option string) : bool :=
  match s with Some (String _ _) => true | _ => false end.

(** Exceptions, by the handler classes the program distinguishes. *)
Inductive exn :=
  | TimeoutExpired
  | RequestException (msg : string)
  | OtherException (msg : string).

Definition exn_message (e : exn) : string :=
  match e with
  | TimeoutExpired => "Command timed out"
  | RequestException msg | OtherException msg => msg
  end.

Inductive outcome (A : Type) :=
  | Returns (a : A)
  | Raises (e : exn).
Arguments Returns {A} a.
Arguments Raises {A} e.

#[global] Instance outcome_ret : MRet outcome := λ A a, Returns a.
#[global] Instance outcome_bind : MBind outcome := λ A B k m,
  match m with Returns a => k a | Raises e => Raises e end.

(* ===================================================================== *)
(** ** utils/tracker.py : the ledger                                     *)
(* ===================================================================== *)

Module Tracker.

Record ImportedAsset := mk_row {
  icloud_uuid : string;
  immich_id : option string;
  filename : string;
  file_size : Z;
  media_type : string;
  imported_at : datetime
}.

(** The rows of table [imported_assets], oldest insertion first. *)
Definition table := list ImportedAsset.

Definition has_key (id : string) (row : ImportedAsset) : bool :=
  bool_decide (icloud_uuid row = id).

(** [SELECT 1 FROM imported_assets WHERE icloud_uuid = ?] is not empty *)
Definition is_imported (t : table) (id : string) : bool :=
  match List.filter (has_key id) t with [] => false | _ :: _ => true end.

(** [SELECT icloud_uuid FROM imported_assets], collected in a set *)
Definition get_imported_uuids (t : table) : gset string :=
  list_to_set (icloud_uuid <$> t).

(** [INSERT OR REPLACE]: on a conflict on the primary key the rows in
    conflict are deleted, then the new row is inserted. *)
Definition insert_or_replace (row : ImportedAsset) (t : table) : table :=
  List.filter (λ r, negb (has_key (icloud_uuid row) r)) t ++ [row].

Definition mark_imported (t : table) (now : datetime)
    (id : string) (immich : option string) (fname : string)
    (size : Z) (kind : string) : table :=
  insert_or_replace (mk_row id immich fname size kind now) t.

(** Number of rows stored under one identifier. *)
Definition rows_for (t : table) (id : string) : nat :=
  length (List.filter (has_key id) t).

End Tracker.

(* ===================================================================== *)
(** ** utils/immich_client.py : the upload client                        *)
(* ===================================================================== *)

Module ImmichClient.

Record UploadResult := mk_result {
  success : bool;
  asset_id : option string;
  duplicate : bool;
  error : option string
}.

(** [UploadResult(success=False, error=msg)] *)
Definition failure (msg : string) : UploadResult :=
  mk_result false None false (Some msg).

(** What [response.json()] decodes to, as far as the client looks at it:
    an object with its ["id"] and ["duplicate"] members when present, or
    a JSON value that is not an object. *)
Inductive json_value :=
  | JObject (id : option string) (dup : option bool)
  | JOther.

Record Response := mk_response {
  status_code : Z;
  text : string;
  json : outcome json_value          (* [response.json()] may raise *)
}.

(** The answers of the outside world to one upload attempt. *)
Record Network := mk_network {
  open_rb : string → outcome unit;   (* [open(file_path, "rb")] *)
  post : string → gmap string string → outcome Response
                                     (* [session.post(url, files, data)] *)
}.

(** [result.get(key)] needs [result] to be a dict. *)
Definition json_members (v : json_value) : outcome (option string * option bool) :=
  match v with
  | JObject id dup => Returns (id, dup)
  | JOther => Raises (OtherException "object has no attribute 'get'")
  end.

(** The form fields sent along with the file. *)
Definition request_data (device_asset_id device_id : string)
    (file_created_at file_modified_at : option string) : gmap string string :=
  let data : gmap string string :=
    <["deviceId" := device_id]> (<["deviceAssetId" := device_asset_id]> ∅) in
  let data :=
    match file_created_at with
    | Some (String _ _ as s) => <["fileCreatedAt" := s]> data
    | _ => data
    end in
  match file_modified_at with
  | Some (String _ _ as s) => <["fileModifiedAt" := s]> data
  | _ => data
  end.

(** The body of the [try] statement. *)
Definition upload_attempt (net : Network) (file_path : string)
    (data : gmap string string) : outcome UploadResult :=
  _ ← open_rb net file_path;
  response ← post net file_path data;
  if (status_code response =? 201)%Z then
    result ← json response;
    '(id, dup) ← json_members result;
    mret (mk_result true id (default false dup) None)
  else if (status_code response =? 200)%Z then
    result ← json response;
    '(id, _) ← json_members result;
    mret (mk_result true id true None)
  else
    mret (failure ("Upload failed: " +:+ decimal (status_code response)
                   +:+ " - " +:+ text response)).

(** [file_exists] answers [file_path.exists()].  The test comes before
    the [try] statement and [Path.exists] raises the errors of [stat]
    other than a missing file (a directory of the path that may not be
    searched, say): an exception of the test leaves [upload_asset]. *)
Definition upload_asset (net : Network) (file_exists : string → outcome bool)
    (file_path device_asset_id device_id : string)
    (file_created_at file_modified_at : option string) : outcome UploadResult :=
  present ← file_exists file_path;
  if negb present then
    Returns (failure ("File not found: " +:+ file_path))
  else
    match upload_attempt net file_path
            (request_data device_asset_id device_id
                          file_created_at file_modified_at) with
    | Returns r => Returns r
    | Raises (RequestException msg) =>
        Returns (failure ("Request error: " +:+ msg))
    | Raises e =>
        Returns (failure ("Unexpected error: " +:+ exn_message e))
    end.

End ImmichClient.

(* ===================================================================== *)
(** ** drain_icloud.py : planning, batching, export, orchestration       *)
(* ===================================================================== *)

Module DrainIcloud.

Import ExifUtils ImmichClient.

(** *** The outside world *)

(** What stays put during a run: which library paths exist on disk
    ([Path(p).exists()]) and the local-time conversion
    [datetime.fromtimestamp]. *)
Record Host := mk_host {
  path_exists : string → bool;
  fromtimestamp : Z → datetime
}.

(** [photo.export(staging_dir, use_photos_export=False, overwrite=True)]:
    the files it created and returns, or the files it left behind and
    the exception it raised. *)
Inductive export_answer :=
  | ExportReturns (files : list string)
  | ExportRaises (left_behind : gset string) (e : exn).

(** [subprocess.run(["osxphotos", "export", ...], timeout=300)]: the
    files the tool wrote into the staging directory, and either the
    completed process (exit status, standard error) or the exception
    ([TimeoutExpired] among them). *)
Inductive cli_answer :=
  | CliCompleted (written : gset string) (returncode : Z) (stderr : string)
  | CliRaises (written : gset string) (e : exn).

Record stat_result := mk_stat {
  st_size : Z;
  st_birthtime : Z;
  st_mtime : Z
}.

(** The answers of the outside world while one item is processed. *)
Record ItemEnv := mk_env {
  photo_export : export_answer;
  subprocess_run : cli_answer;
  stat : string → stat_result;        (* [exported_path.stat()] *)
  network : Network;
  unlink_ok : string → bool;          (* [false]: [unlink()] raises *)
  now : datetime                      (* [datetime.now()] *)
}.

(** *** The state the run acts on *)

(** The actions on the outside world, most recent last. *)
Inductive event :=
  | EvExport (id : string)            (* direct copy through [photo.export] *)
  | EvCli (id : string)               (* osxphotos CLI, [--download-missing] *)
  | EvSleep (seconds : Z)
  | EvUpload (file_path device_asset_id device_id : string)
             (file_created_at file_modified_at : option string)
  | EvCommit (id : string)            (* ledger write *)
  | EvUnlink (file : string).

Record State := mk_state {
  db : Tracker.table;                 (* the ledger's table *)
  staging : gset string;              (* the files of the staging directory *)
  trace : list event
}.

Definition log_event (e : event) (st : State) : State :=
  mk_state (db st) (staging st) (trace st ++ [e]).

Definition write_files (files : gset string) (st : State) : State :=
  mk_state (db st) (staging st ∪ files) (trace st).

Record Stats := mk_stats {
  exported : Z; uploaded : Z; duplicates : Z; failed : Z; skipped : Z
}.

Definition zero_stats : Stats := mk_stats 0 0 0 0 0.

Definition add_stats (a b : Stats) : Stats :=
  mk_stats (exported a + exported b) (uploaded a + uploaded b)
           (duplicates a + duplicates b) (failed a + failed b)
           (skipped a + skipped b).

(** *** get_photos_to_import *)

(** [photo.path and Path(photo.path).exists()] *)
Definition is_local (host : Host) (photo : PhotoInfo) : bool :=
  match path photo with
  | Some (String _ _ as p) => path_exists host p
  | _ => false
  end.

(** [photo.original_filename and should_skip_file(photo.original_filename)] *)
Definition is_junk (photo : PhotoInfo) : bool :=
  match original_filename photo with
  | Some (String _ _ as f) => should_skip_file f
  | _ => false
  end.

(** The [for] loop, with its two accumulators. *)
Fixpoint scan_photos (host : Host) (imported_uuids : gset string)
    (local_only : bool) (all_photos local_photos cloud_photos : list PhotoInfo)
    : list PhotoInfo * list PhotoInfo :=
  match all_photos with
  | [] => (local_photos, cloud_photos)
  | photo :: rest =>
      if bool_decide (uuid photo ∈ imported_uuids) then
        scan_photos host imported_uuids local_only rest local_photos cloud_photos
      else if is_junk photo then
        scan_photos host imported_uuids local_only rest local_photos cloud_photos
      else if is_local host photo then
        scan_photos host imported_uuids local_only rest
                    (local_photos ++ [photo]) cloud_photos
      else if negb local_only then
        scan_photos host imported_uuids local_only rest
                    local_photos (cloud_photos ++ [photo])
      else
        scan_photos host imported_uuids local_only rest local_photos cloud_photos
  end.

(** [all_photos] is [photosdb.photos()]. *)
Definition get_photos_to_import (host : Host) (all_photos : list PhotoInfo)
    (imported_uuids : gset string) (local_only : bool) : list PhotoInfo :=
  let '(local_photos, cloud_photos) :=
    scan_photos host imported_uuids local_only all_photos [] [] in
  local_photos ++ cloud_photos.

(** *** build_batch *)

(** The size the batch budget counts for one item. *)
Definition declared_size (photo : PhotoInfo) : Z :=
  let file_size := default 0%Z (original_filesize photo) in
  if (file_size =? 0)%Z then
    if isphoto photo then (5 * 1024 * 1024)%Z else (100 * 1024 * 1024)%Z
  else file_size.

(** The [for] loop; returning [batch] is the [break]. *)
Fixpoint build_batch_loop (photos : list PhotoInfo) (max_bytes max_items : Z)
    (batch : list PhotoInfo) (batch_size : Z) : list PhotoInfo :=
  match photos with
  | [] => batch
  | photo :: rest =>
      if negb (max_items =? 0)%Z && (Z.of_nat (length batch) >=? max_items)%Z
      then batch
      else
        let file_size := declared_size photo in
        if (batch_size + file_size >? max_bytes)%Z
           && negb (bool_decide (batch = []))
        then batch
        else build_batch_loop rest max_bytes max_items
                              (batch ++ [photo]) (batch_size + file_size)
  end.

Definition build_batch (photos : list PhotoInfo) (max_bytes max_items : Z)
    : list PhotoInfo :=
  build_batch_loop photos max_bytes max_items [] 0.

(** The accumulated declared size of a batch. *)
Definition total_size (batch : list PhotoInfo) : Z :=
  foldr (λ photo acc, declared_size photo + acc)%Z 0%Z batch.

(** *** export_photo *)

(** Returns the exported path, [None] for a failed export.  Both
    [except] clauses return [None]; whatever the failed attempt wrote
    stays in the staging directory. *)
Definition export_photo (host : Host) (env : ItemEnv) (photo : PhotoInfo)
    (st : State) : option string * State :=
  if is_local host photo then
    let st := log_event (EvExport (uuid photo)) st in
    match photo_export env with
    | ExportReturns exported_files =>
        (head exported_files, write_files (list_to_set exported_files) st)
    | ExportRaises left_behind _ => (None, write_files left_behind st)
    end
  else
    let st := log_event (EvCli (uuid photo)) st in
    match subprocess_run env with
    | CliCompleted written returncode _ =>
        let st := write_files written st in
        if (returncode =? 0)%Z then (head (elements (staging st)), st)
        else (None, st)
    | CliRaises written _ => (None, write_files written st)
    end.

(** *** process_batch *)

Definition DATE_FORMAT : string := "%Y-%m-%dT%H:%M:%S.000Z".

Definition format_date (dt : option datetime) : option string :=
  match dt with
  | None => None
  | Some dt =>
      let dt := match tzinfo dt with
                | None => replace_tzinfo dt (Some 0%Z)
                | Some _ => dt
                end in
      Some (strftime dt DATE_FORMAT)
  end.

(** [value if value else fallback], for [if not value: value = fallback] *)
Definition or_else (value : option string) (fallback : string) : option string :=
  if truthy_str value then value else Some fallback.

Definition incr_exported (s : Stats) : Stats :=
  mk_stats (exported s + 1) (uploaded s) (duplicates s) (failed s) (skipped s).
Definition incr_uploaded (s : Stats) : Stats :=
  mk_stats (exported s) (uploaded s + 1) (duplicates s) (failed s) (skipped s).
Definition incr_duplicates (s : Stats) : Stats :=
  mk_stats (exported s) (uploaded s) (duplicates s + 1) (failed s) (skipped s).
Definition incr_failed (s : Stats) : Stats :=
  mk_stats (exported s) (uploaded s) (duplicates s) (failed s + 1) (skipped s).
Definition incr_skipped (s : Stats) : Stats :=
  mk_stats (exported s) (uploaded s) (duplicates s) (failed s) (skipped s + 1).

Definition DEVICE_ID : string := "dam-icloud-drain".

(** [photo.original_filename or f"unknown_{photo.uuid}"] *)
Definition item_filename (photo : PhotoInfo) : string :=
  match original_filename photo with
  | Some (String _ _ as f) => f
  | _ => "unknown_" +:+ uuid photo
  end.

(** [get_media_type(filename) or ("photo" if photo.isphoto else "video")] *)
Definition item_media_type (photo : PhotoInfo) : string :=
  default (if isphoto photo then "photo" else "video")
          (get_media_type (item_filename photo)).

Definition commit_row (env : ItemEnv) (photo : PhotoInfo)
    (immich : option string) (file_size : Z) (st : State) : State :=
  log_event (EvCommit (uuid photo))
    (mk_state
       (Tracker.mark_imported (db st) (now env) (uuid photo) immich
          (item_filename photo) file_size (item_media_type photo))
       (staging st) (trace st)).

(** [try: path.unlink() except Exception: ...] *)
Definition try_unlink (ok : string → bool) (file : string) (st : State) : State :=
  log_event (EvUnlink file)
    (if ok file then mk_state (db st) (staging st ∖ {[file]}) (trace st)
     else st).

(** The body of the [for] loop, for the [i]-th of [n] items.  The calls
    the body makes outside every [try] on the file it has just exported
    ([exported_path.stat()], [datetime.fromtimestamp], the existence
    test of the client) and the ledger write are taken to answer: an
    exception of one of them is caught nowhere and ends the program. *)
Definition process_item (host : Host) (env : ItemEnv) (dry_run : bool)
    (n i : nat) (photo : PhotoInfo) (stats : Stats) (st : State)
    : outcome (Stats * State) :=
  let is_cloud := negb (is_local host photo) in
  if dry_run then mret (incr_skipped stats, st)
  else
    let '(exported_path, st) := export_photo host env photo st in
    let st :=
      if is_cloud && bool_decide (is_Some exported_path) && (i <? n)%nat
      then log_event (EvSleep 30) st else st in
    match exported_path with
    | None => mret (incr_failed stats, st)
    | Some exported_path =>
        let stats := incr_exported stats in
        let file_size := st_size (stat env exported_path) in
        let file_stat := stat env exported_path in
        let created_at :=
          or_else (format_date (date photo))
            (strftime (fromtimestamp host (st_birthtime file_stat)) DATE_FORMAT) in
        let modified_at :=
          or_else (format_date (date_modified photo))
            (strftime (fromtimestamp host (st_mtime file_stat)) DATE_FORMAT) in
        let st := log_event (EvUpload exported_path (uuid photo) DEVICE_ID
                                      created_at modified_at) st in
        result ← upload_asset (network env)
                   (λ f, Returns (bool_decide (f ∈ staging st)))
                   exported_path (uuid photo) DEVICE_ID created_at modified_at;
        let '(stats, st) :=
          if success result then
            (if duplicate result then incr_duplicates stats
             else incr_uploaded stats,
             commit_row env photo (asset_id result) file_size st)
          else (incr_failed stats, st) in
        mret (stats, try_unlink (unlink_ok env) exported_path st)
    end.

(** [for i, photo in enumerate(batch, i): ...] *)
Fixpoint process_items (host : Host) (envs : nat → ItemEnv) (dry_run : bool)
    (n i : nat) (batch : list PhotoInfo) (stats : Stats) (st : State)
    : outcome (Stats * State) :=
  match batch with
  | [] => mret (stats, st)
  | photo :: rest =>
      '(stats, st) ← process_item host (envs i) dry_run n i photo stats st;
      process_items host envs dry_run n (S i) rest stats st
  end.

Definition process_batch (host : Host) (envs : nat → ItemEnv)
    (batch : list PhotoInfo) (st : State) (dry_run : bool)
    : outcome (Stats * State) :=
  process_items host envs dry_run (length batch) 1 batch zero_stats st.

(** *** main: the batching loop *)

Record Args := mk_args {
  dry_run : bool;
  batch_size_bytes : Z;
  max_batches : Z;
  local_only : bool;
  max_items : Z
}.

Record World := mk_world {
  host : Host;
  item_env : nat → nat → ItemEnv;      (* batch number, position in the batch *)
  sweep_unlink_ok : nat → string → bool (* the sweep that ends a batch *)
}.

(** [for f in staging_dir.iterdir(): try: f.unlink() except: pass];
    only the deletions are guarded, the listing is taken to answer. *)
Definition sweep (ok : string → bool) (st : State) : State :=
  foldl (λ st f, try_unlink ok f st) st (elements (staging st)).

(** [to_import = [p for p in to_import if p.uuid not in batch_uuids]] *)
Definition remove_batch (batch to_import : list PhotoInfo) : list PhotoInfo :=
  let batch_uuids : gset string := list_to_set (uuid <$> batch) in
  List.filter (λ p, negb (bool_decide (uuid p ∈ batch_uuids))) to_import.

(** The [while to_import:] loop.  [fuel] bounds the number of
    iterations; [None] means the bound was reached. *)
Fixpoint main_loop (fuel : nat) (w : World) (args : Args) (batch_num : nat)
    (to_import : list PhotoInfo) (total_stats : Stats) (st : State)
    : option (outcome (Stats * State)) :=
  match to_import with
  | [] => Some (Returns (total_stats, st))
  | _ :: _ =>
      match fuel with
      | O => None
      | S fuel' =>
          let batch_num := S batch_num in
          if negb (max_batches args =? 0)%Z
             && (Z.of_nat batch_num >? max_batches args)%Z
          then Some (Returns (total_stats, st))
          else
            let batch :=
              build_batch to_import (batch_size_bytes args) (max_items args) in
            if bool_decide (batch = []) then Some (Returns (total_stats, st))
            else
              let to_import := remove_batch batch to_import in
              match process_batch (host w) (item_env w batch_num) batch st
                                  (dry_run args) with
              | Raises e => Some (Raises e)
              | Returns (batch_stats, st) =>
                  let total_stats := add_stats total_stats batch_stats in
                  let st :=
                    if dry_run args then st
                    else sweep (sweep_unlink_ok w batch_num) st in
                  main_loop fuel' w args batch_num to_import total_stats st
              end
      end
  end.

(** [main], from the scan of the library on: the ledger's identifiers
    are read, the worklist is planned and drained. *)
Definition main (w : World) (args : Args) (all_photos : list PhotoInfo)
    (st : State) : option (outcome (Stats * State)) :=
  let imported_uuids := Tracker.get_imported_uuids (db st) in
  let to_import :=
    get_photos_to_import (host w) all_photos imported_uuids (local_only args) in
  main_loop (length to_import) w args 0 to_import zero_stats st.

End DrainIcloud.

(* ===================================================================== *)
(** ** Properties of [build_batch]                                       *)
(* ===================================================================== *)

Module BatchProps.

Import DrainIcloud.
Local Open Scope Z_scope.

Definition photo_a : PhotoInfo :=
  mk_photo "A" (Some "IMG_0001.JPG") (Some "/lib/IMG_0001.JPG")
           (Some 2147483648) true None None.
Definition video_b : PhotoInfo :=
  mk_photo "B" (Some "clip.mov") None None false None None.
Definition photo_c : PhotoInfo :=
  mk_photo "C" (Some "IMG_0003.HEIC") None (Some 0) true None None.

Example declared_size_reported : declared_size photo_a = 2147483648.
Proof. reflexivity. Qed.
Example declared_size_video : declared_size video_b = 104857600.
Proof. reflexivity. Qed.
Example declared_size_photo : declared_size photo_c = 5242880.
Proof. reflexivity. Qed.

(** The scenario of the specification: 2 GB and a video of unknown size
    fit together in 5 GB. *)
Example batch_scenario :
  build_batch [photo_a; video_b] (5 * 1024 * 1024 * 1024) 0
  = [photo_a; video_b].
Proof. reflexivity. Qed.

Example batch_oversized_alone :
  build_batch [photo_a; video_b] 1000 0 = [photo_a].
Proof. reflexivity. Qed.

Example batch_item_cap :
  build_batch [photo_c; photo_c; photo_c] (5 * 1024 * 1024 * 1024) 2
  = [photo_c; photo_c].
Proof. reflexivity. Qed.

Lemma total_size_app batch photo :
  total_size (batch ++ [photo]) = total_size batch + declared_size photo.
Proof.
  unfold total_size. induction batch as [|q batch IH]; simpl; [lia|].
  rewrite IH. lia.
Qed.

(** The loop only ever extends its accumulator by a prefix of what is
    left of the worklist. *)
Lemma build_batch_loop_prefix photos max_bytes max_items batch batch_size :
  ∃ taken rest,
    photos = taken ++ rest ∧
    build_batch_loop photos max_bytes max_items batch batch_size
    = batch ++ taken.
Proof.
  revert batch batch_size.
  induction photos as [|photo photos IH]; intros batch batch_size; simpl.
  - exists [], []. split; [done|]. by rewrite app_nil_r.
  - destruct (negb _ && _).
    { exists [], (photo :: photos). split; [done|]. by rewrite app_nil_r. }
    destruct (_ && _).
    { exists [], (photo :: photos). split; [done|]. by rewrite app_nil_r. }
    destruct (IH (batch ++ [photo]) (batch_size + declared_size photo))
      as (taken & rest & -> & ->).
    exists (photo :: taken), rest. split; [done|]. by rewrite <- app_assoc.
Qed.

(** A positive item cap that the accumulator respects is respected by
    the result. *)
Lemma build_batch_loop_items photos max_bytes max_items batch batch_size :
  0 < max_items →
  Z.of_nat (length batch) ≤ max_items →
  Z.of_nat (length
    (build_batch_loop photos max_bytes max_items batch batch_size))
  ≤ max_items.
Proof.
  intros Hpos. revert batch batch_size.
  induction photos as [|photo photos IH]; intros batch batch_size Hlen;
    simpl; [done|].
  destruct (negb (max_items =? 0) && _) eqn:Hcap; [done|].
  destruct ((_ >? _) && _); [done|].
  apply IH. rewrite length_app. simpl.
  apply andb_false_iff in Hcap as [Hcap|Hcap].
  - apply negb_false_iff, Z.eqb_eq in Hcap. lia.
  - rewrite Z.geb_leb in Hcap. apply Z.leb_gt in Hcap. lia.
Qed.

(** A negative item cap stops the loop before it takes anything. *)
Lemma build_batch_loop_negative_cap photos max_bytes max_items batch batch_size :
  max_items < 0 →
  build_batch_loop photos max_bytes max_items batch batch_size = batch.
Proof.
  intros Hneg. destruct photos as [|photo photos]; simpl; [done|].
  assert ((max_items =? 0) = false) as -> by (apply Z.eqb_neq; lia).
  assert ((Z.of_nat (length batch) >=? max_items) = true) as ->
    by (rewrite Z.geb_leb; apply Z.leb_le; lia).
  done.
Qed.

(** What the byte budget guarantees of an accumulator. *)
Definition within_budget (max_bytes : Z) (batch : list PhotoInfo) : Prop :=
  batch = [] ∨ total_size batch ≤ max_bytes
  ∨ ∃ photo, batch = [photo] ∧ max_bytes < declared_size photo.

Lemma build_batch_loop_budget photos max_bytes max_items batch batch_size :
  batch_size = total_size batch →
  within_budget max_bytes batch →
  within_budget max_bytes
    (build_batch_loop photos max_bytes max_items batch batch_size).
Proof.
  revert batch batch_size.
  induction photos as [|photo photos IH]; intros batch batch_size Hsize Hinv;
    simpl; [done|].
  destruct (negb _ && _); [done|].
  destruct ((_ >? _) && _) eqn:Hover; [done|].
  apply IH.
  - rewrite total_size_app. lia.
  - apply andb_false_iff in Hover as [Hover|Hover].
    + right. left. rewrite total_size_app.
      rewrite Z.gtb_ltb in Hover. apply Z.ltb_ge in Hover. lia.
    + apply negb_false_iff, bool_decide_eq_true in Hover. subst batch.
      simpl. destruct (Z_le_gt_dec (declared_size photo) max_bytes).
      * right. left. unfold total_size. simpl. lia.
      * right. right. exists photo. split; [done|lia].
Qed.

(** The two caps as the specification words them: the item cap binds
    whenever it is nonzero, the byte budget whenever the batch is not a
    single oversized first item. *)
Definition bounds_as_stated (photos : list PhotoInfo)
    (max_bytes max_items : Z) : Prop :=
  let batch := build_batch photos max_bytes max_items in
  (max_items ≠ 0 → Z.of_nat (length batch) ≤ max_items) ∧
  (total_size batch ≤ max_bytes
   ∨ ∃ first rest, photos = first :: rest ∧ batch = [first]
                   ∧ max_bytes < declared_size first).

(** [--max-items -1] with a budget of [-1] bytes: the batch is empty,
    which is more than [-1] items and more than [-1] bytes. *)
Lemma build_batch_negative_caps :
  ¬ bounds_as_stated [photo_c] (-1) (-1).
Proof.
  intros [Hitems _]. vm_compute in Hitems.
  apply Hitems; [discriminate | reflexivity].
Qed.

Example negative_budget_empty_worklist :
  ¬ (total_size (build_batch [] (-1) 0) ≤ -1).
Proof. vm_compute. intros H. by apply H. Qed.

(** C1 (amended).  A positive [max_items] bounds the number of items of
    the batch and a negative one empties it; a batch that is not empty
    stays within [max_bytes] of accumulated declared size, unless it is
    the first item of the worklist alone and that item is oversized. *)
Theorem build_batch_bounds (photos : list PhotoInfo) (max_bytes max_items : Z) :
  let batch := build_batch photos max_bytes max_items in
  (0 < max_items → Z.of_nat (length batch) ≤ max_items) ∧
  (max_items < 0 → batch = []) ∧
  (batch ≠ [] →
     total_size batch ≤ max_bytes
     ∨ ∃ first rest, photos = first :: rest ∧ batch = [first]
                     ∧ max_bytes < declared_size first).
Proof.
  cbv zeta. unfold build_batch. repeat split.
  - intros Hpos. apply build_batch_loop_items; simpl; lia.
  - intros Hneg. by apply build_batch_loop_negative_cap.
  - intros Hne.
    assert (within_budget max_bytes
              (build_batch_loop photos max_bytes max_items [] 0))
      as [Hnil|[Hle|(first & Hone & Hbig)]]
      by (apply build_batch_loop_budget; [done|by left]).
    { done. }
    { left. exact Hle. }
    right. exists first.
    destruct (build_batch_loop_prefix photos max_bytes max_items [] 0)
      as (taken & rest & Hphotos & Hbatch).
    rewrite Hone in Hbatch. simpl in Hbatch. subst taken.
    exists rest. split; [exact Hphotos|]. split; [exact Hone|exact Hbig].
Qed.

Lemma build_batch_bounds_witness :
  Z.of_nat (length (build_batch [photo_a; video_b; photo_c] 1000 2)) ≤ 2
  ∧ build_batch [photo_a; video_b] 1000 (-1) = []
  ∧ (total_size (build_batch [photo_a; video_b] 1000 0) ≤ 1000
     ∨ ∃ first rest, [photo_a; video_b] = first :: rest
                     ∧ build_batch [photo_a; video_b] 1000 0 = [first]
                     ∧ 1000 < declared_size first).
Proof.
  split; [|split].
  - apply (build_batch_bounds [photo_a; video_b; photo_c] 1000 2). lia.
  - apply (build_batch_bounds [photo_a; video_b] 1000 (-1)). lia.
  - apply (build_batch_bounds [photo_a; video_b] 1000 0). discriminate.
Defined.

End BatchProps.

(* ===================================================================== *)
(** ** Properties of the classifier                                      *)
(* ===================================================================== *)

Module ClassifierProps.

Import ExifUtils.

Example skip_upper_thm : should_skip_file "IMG_0001.THM" = true.
Proof. vm_compute. reflexivity. Qed.
Example skip_mixed_lrf : should_skip_file "clip.v2.LrF" = true.
Proof. vm_compute. reflexivity. Qed.
Example keep_inner_thm : should_skip_file "a.thm.JPG" = false.
Proof. vm_compute. reflexivity. Qed.
Example keep_no_extension : should_skip_file "thm" = false.
Proof. vm_compute. reflexivity. Qed.
Example media_type_photo : get_media_type "a.thm.JPG" = Some "photo".
Proof. vm_compute. reflexivity. Qed.
Example media_type_unknown : get_media_type "README" = None.
Proof. vm_compute. reflexivity. Qed.

Lemma is_dot_true c : is_dot c = true → c = "."%char.
Proof. apply Ascii.eqb_eq. Qed.

Lemma lower_char_dot : lower_char "." = "."%char.
Proof. reflexivity. Qed.

(** Lowering never produces a dot out of another character. *)
Lemma lower_char_is_dot c : lower_char c = "."%char → c = "."%char.
Proof.
  destruct c as [[] [] [] [] [] [] [] []]; vm_compute; congruence.
Qed.

Lemma lower_char_not_dot c : lower_char c ≠ "."%char → is_dot c = false.
Proof.
  intros Hne. destruct (is_dot c) eqn:Hdot; [|done].
  apply is_dot_true in Hdot. subst c. by destruct Hne.
Qed.

Lemma contains_dot_app stem tail :
  contains_dot (stem +:+ String "." tail) = true.
Proof.
  induction stem as [|c stem IH]; simpl; [done|].
  rewrite IH. apply orb_true_r.
Qed.

(** [rsplit] cuts at the last dot. *)
Lemma rsplit_last_app stem tail :
  contains_dot tail = false →
  rsplit_last (stem +:+ String "." tail) = tail.
Proof.
  intros Hnodot. induction stem as [|c stem IH]; simpl.
  - by rewrite Hnodot.
  - by rewrite contains_dot_app.
Qed.

Lemma rsplit_last_no_dot s : contains_dot (rsplit_last s) = false.
Proof.
  induction s as [|c s IH]; simpl; [done|].
  destruct (contains_dot s) eqn:Hs; [done|].
  destruct (is_dot c) eqn:Hc; [done|]. simpl. by rewrite Hc, Hs.
Qed.

Lemma rsplit_last_split s :
  contains_dot s = true →
  ∃ stem, s = stem +:+ String "." (rsplit_last s).
Proof.
  induction s as [|c s IH]; simpl; [done|].
  destruct (contains_dot s) eqn:Hs.
  - intros _. destruct IH as [stem Hstem]; [done|].
    exists (String c stem).
    change (String c s = String c (stem +:+ String "." (rsplit_last s))).
    by rewrite <- Hstem.
  - rewrite orb_false_r. intros Hc. apply is_dot_true in Hc. subst c.
    by exists "".
Qed.

Lemma lower_app a b : lower (a +:+ b) = lower a +:+ lower b.
Proof. induction a as [|c a IH]; simpl; [done|]. by rewrite IH. Qed.

Lemma elem_of_skip_extensions ext :
  ext ∈ SKIP_EXTENSIONS ↔ ext ∈ [ ".thm"; ".scr"; ".lrf" ].
Proof. unfold SKIP_EXTENSIONS. by rewrite elem_of_list_to_set. Qed.

(** A four-character extension whose lowering is a dot and three
    letters is a dot followed by three characters that are no dots. *)
Lemma lower_extension_shape ext c1 c2 c3 :
  lower ext = String "." (String c1 (String c2 (String c3 ""))) →
  c1 ≠ "."%char → c2 ≠ "."%char → c3 ≠ "."%char →
  ∃ tail, ext = String "." tail ∧ contains_dot tail = false
          ∧ lower tail = String c1 (String c2 (String c3 "")).
Proof.
  intros Hlow H1 H2 H3.
  destruct ext as [|a [|b1 [|b2 [|b3 [|? ?]]]]]; simpl in Hlow; try done.
  injection Hlow as Ha Hb1 Hb2 Hb3.
  apply lower_char_is_dot in Ha. subst a.
  exists (String b1 (String b2 (String b3 ""))). split; [done|]. split.
  - simpl. rewrite !lower_char_not_dot; [done|congruence..].
  - simpl. congruence.
Qed.

(** The code's test agrees with the specification's wording. *)
Theorem should_skip_file_spec filename :
  should_skip_file filename = true ↔ has_junk_extension filename.
Proof.
  unfold should_skip_file, has_junk_extension, _get_extension.
  rewrite bool_decide_eq_true, elem_of_skip_extensions. split.
  - destruct (contains_dot filename) eqn:Hdot.
    + intros Hin. destruct (rsplit_last_split filename Hdot) as [stem Hstem].
      exists stem, (String "." (rsplit_last filename)). split; [done|].
      simpl. exact Hin.
    + intros Hin. exfalso. revert Hin. rewrite !elem_of_cons, elem_of_nil.
      intros [|[|[|[]]]]; discriminate.
  - intros (stem & ext & -> & Hin).
    assert (∃ tail, ext = String "." tail ∧ contains_dot tail = false
                    ∧ "." +:+ lower tail ∈ [".thm"; ".scr"; ".lrf"])
      as (tail & -> & Hnodot & Htail).
    { revert Hin. rewrite !elem_of_cons, elem_of_nil.
      intros [H|[H|[H|[]]]];
        apply lower_extension_shape in H as (tail & -> & ? & Hl);
        try discriminate;
        (exists tail; split; [done|]; split; [done|]); rewrite Hl;
        rewrite !elem_of_cons; auto. }
    rewrite contains_dot_app, rsplit_last_app by done. exact Htail.
Qed.

End ClassifierProps.

(* ===================================================================== *)
(** ** Properties of planning                                            *)
(* ===================================================================== *)

Module PlannerProps.

Import ExifUtils DrainIcloud.

Section Planning.

Variable host : Host.
Variable imported_uuids : gset string.
Variable local_only : bool.

(** Which candidates the scan files under "local" and under "cloud". *)
Definition eligible (photo : PhotoInfo) : bool :=
  negb (bool_decide (uuid photo ∈ imported_uuids)) && negb (is_junk photo).

Definition goes_local (photo : PhotoInfo) : bool :=
  eligible photo && is_local host photo.

Definition goes_cloud (photo : PhotoInfo) : bool :=
  eligible photo && negb (is_local host photo) && negb local_only.

Lemma scan_photos_filter all_photos local_photos cloud_photos :
  scan_photos host imported_uuids local_only
              all_photos local_photos cloud_photos
  = (local_photos ++ List.filter goes_local all_photos,
     cloud_photos ++ List.filter goes_cloud all_photos).
Proof.
  revert local_photos cloud_photos.
  induction all_photos as [|photo rest IH]; intros local_photos cloud_photos;
    simpl.
  - by rewrite !app_nil_r.
  - rewrite !IH. unfold goes_local, goes_cloud, eligible.
    destruct (bool_decide (uuid photo ∈ imported_uuids)),
      (is_junk photo), (is_local host photo), local_only; simpl;
      by rewrite <- ?app_assoc.
Qed.

Lemma get_photos_to_import_filter all_photos :
  get_photos_to_import host all_photos imported_uuids local_only
  = List.filter goes_local all_photos ++ List.filter goes_cloud all_photos.
Proof.
  unfold get_photos_to_import. by rewrite scan_photos_filter.
Qed.

Lemma elem_of_get_photos_to_import all_photos photo :
  photo ∈ get_photos_to_import host all_photos imported_uuids local_only
  ↔ photo ∈ all_photos ∧ eligible photo = true
    ∧ (is_local host photo = true ∨ local_only = false).
Proof.
  rewrite get_photos_to_import_filter, elem_of_app, !list_elem_of_In,
    !filter_In.
  unfold goes_local, goes_cloud.
  destruct (eligible photo), (is_local host photo), local_only; simpl;
    intuition discriminate.
Qed.

End Planning.


Lemma not_junk_empty : ¬ has_junk_extension "".
Proof.
  intros (stem & ext & Heq & Hin).
  destruct stem, ext; try discriminate.
  revert Hin. rewrite !elem_of_cons, elem_of_nil.
  intros [|[|[|[]]]]; discriminate.
Qed.

Lemma is_junk_false photo filename :
  is_junk photo = false →
  original_filename photo = Some filename →
  ¬ has_junk_extension filename.
Proof.
  unfold is_junk. intros Hjunk Hname. rewrite Hname in Hjunk.
  destruct filename as [|c f].
  - apply not_junk_empty.
  - rewrite <- ClassifierProps.should_skip_file_spec. by rewrite Hjunk.
Qed.

(** A small library: [IMG_0001.JPG] is on disk, the clip and the camera
    thumbnail are only in iCloud, [IMG_0003.HEIC] is on disk too. *)
Definition epoch : datetime := mk_datetime 1970 1 1 0 0 0 None eq_refl.

Definition sample_host : Host :=
  mk_host (λ p, bool_decide (p = "/lib/IMG_0001.JPG")
                || bool_decide (p = "/lib/IMG_0003.HEIC"))
          (λ _, epoch).

Definition photo_1 : PhotoInfo :=
  mk_photo "A" (Some "IMG_0001.JPG") (Some "/lib/IMG_0001.JPG")
           (Some 2147483648%Z) true None None.
Definition video_2 : PhotoInfo :=
  mk_photo "B" (Some "clip.mov") None None false None None.
Definition photo_3 : PhotoInfo :=
  mk_photo "C" (Some "IMG_0003.HEIC") (Some "/lib/IMG_0003.HEIC")
           (Some 0%Z) true None None.
Definition thumbnail_4 : PhotoInfo :=
  mk_photo "D" (Some "IMG_0001.THM") None (Some 4096%Z) true None None.

Example plan_scenario :
  get_photos_to_import sample_host [video_2; photo_1; photo_3] {["C"]} false
  = [photo_1; video_2].
Proof. vm_compute. reflexivity. Qed.

Example plan_local_only :
  get_photos_to_import sample_host
    [video_2; thumbnail_4; photo_1; photo_3] ∅ true
  = [photo_1; photo_3].
Proof. vm_compute. reflexivity. Qed.

(** C2.  Whatever the candidates and the set of migrated identifiers, a
    candidate of the worklist has an identifier outside the migrated set
    and a file name without junk extension. *)
Theorem worklist_excludes_migrated_and_junk
    (host : Host) (all_photos : list PhotoInfo)
    (imported_uuids : gset string) (local_only : bool) (photo : PhotoInfo) :
  photo ∈ get_photos_to_import host all_photos imported_uuids local_only →
  (uuid photo ∉ imported_uuids)
  ∧ (∀ filename, original_filename photo = Some filename →
                 ¬ has_junk_extension filename).
Proof.
  rewrite elem_of_get_photos_to_import. intros (_ & Helig & _).
  unfold eligible in Helig. apply andb_true_iff in Helig as [Hnew Hjunk].
  apply negb_true_iff in Hnew, Hjunk. split.
  - by apply bool_decide_eq_false in Hnew.
  - intros filename. by apply is_junk_false.
Qed.

Lemma worklist_excludes_migrated_and_junk_witness :
  (uuid video_2 ∉ ({["C"]} : gset string))
  ∧ (∀ filename, original_filename video_2 = Some filename →
                 ¬ has_junk_extension filename).
Proof.
  apply (worklist_excludes_migrated_and_junk sample_host
           [video_2; thumbnail_4; photo_1; photo_3] {["C"]} false video_2).
  vm_compute. right. left.
Defined.

(** C3.  In the worklist every candidate that is available on disk
    comes before every candidate that is not, whatever the order of the
    catalog; under [local_only] the worklist holds none of the latter. *)
Theorem local_before_remote
    (host : Host) (all_photos : list PhotoInfo)
    (imported_uuids : gset string) (local_only : bool) :
  let worklist :=
    get_photos_to_import host all_photos imported_uuids local_only in
  (∀ (i j : nat) (p q : PhotoInfo),
      worklist !! i = Some p → worklist !! j = Some q →
      is_local host p = true → is_local host q = false → (i < j)%nat)
  ∧ (local_only = true → ∀ p, p ∈ worklist → is_local host p = true).
Proof.
  cbv zeta. split.
  - rewrite get_photos_to_import_filter.
    intros i j p q Hi Hj Hp Hq.
    set (locals := List.filter (goes_local host imported_uuids) all_photos)
      in *.
    set (clouds :=
           List.filter (goes_cloud host imported_uuids local_only) all_photos)
      in *.
    assert (i < length locals)%nat as Hilt.
    { destruct (decide (i < length locals)%nat) as [|Hge]; [done|].
      rewrite lookup_app_r in Hi by lia.
      apply list_elem_of_lookup_2, list_elem_of_In, filter_In in Hi
        as [_ Hcloud].
      unfold goes_cloud in Hcloud. rewrite Hp in Hcloud.
      by rewrite andb_false_r in Hcloud. }
    assert (length locals ≤ j)%nat as Hjge.
    { destruct (decide (length locals ≤ j)%nat) as [|Hlt]; [done|].
      rewrite lookup_app_l in Hj by lia.
      apply list_elem_of_lookup_2, list_elem_of_In, filter_In in Hj
        as [_ Hlocal].
      unfold goes_local in Hlocal. rewrite Hq in Hlocal.
      by rewrite andb_false_r in Hlocal. }
    lia.
  - intros -> p. rewrite elem_of_get_photos_to_import.
    intros (_ & _ & [Hlocal|Hno]); [done|discriminate].
Qed.

Lemma local_before_remote_witness :
  (0 < 2)%nat
  ∧ is_local sample_host photo_3 = true.
Proof.
  split.
  - apply (local_before_remote sample_host [video_2; photo_1; photo_3]
             ∅ false) with (p := photo_1) (q := video_2);
      vm_compute; reflexivity.
  - apply (local_before_remote sample_host [video_2; photo_1; photo_3]
             ∅ true); [reflexivity|].
    vm_compute. right. left.
Defined.

End PlannerProps.

(* ===================================================================== *)
(** ** Properties of the ledger                                          *)
(* ===================================================================== *)

Module LedgerProps.

Import Tracker.

Definition t0 : datetime := mk_datetime 2024 5 17 9 30 0 None eq_refl.
Definition t1 : datetime := mk_datetime 2024 5 18 21 5 59 None eq_refl.

Definition sample_table : table :=
  mark_imported (mark_imported [] t0 "A" (Some "immich-1") "a.jpg" 10 "photo")
                t0 "B" None "b.mov" 20 "video".

Example sample_is_imported : is_imported sample_table "B" = true.
Proof. reflexivity. Qed.
Example sample_not_imported : is_imported sample_table "C" = false.
Proof. reflexivity. Qed.
Example sample_replace :
  mark_imported sample_table t1 "A" (Some "immich-9") "a.jpg" 11 "photo"
  = [ mk_row "B" None "b.mov" 20 "video" t0;
      mk_row "A" (Some "immich-9") "a.jpg" 11 "photo" t1 ].
Proof. reflexivity. Qed.

Lemma filter_own_key_removed id (t : table) :
  List.filter (has_key id) (List.filter (λ r, negb (has_key id r)) t) = [].
Proof.
  induction t as [|r t IH]; simpl; [done|].
  destruct (has_key id r) eqn:Hr; simpl; [done|]. by rewrite Hr.
Qed.

Lemma filter_other_key_kept id id' (t : table) :
  id' ≠ id →
  List.filter (has_key id') (List.filter (λ r, negb (has_key id r)) t)
  = List.filter (has_key id') t.
Proof.
  intros Hne. induction t as [|r t IH]; simpl; [done|].
  destruct (has_key id r) eqn:Hid, (has_key id' r) eqn:Hid'; simpl;
    rewrite ?Hid', ?IH; try done.
  apply bool_decide_eq_true in Hid, Hid'. congruence.
Qed.

Lemma filter_not_key_idempotent id (t : table) :
  List.filter (λ r, negb (has_key id r))
              (List.filter (λ r, negb (has_key id r)) t)
  = List.filter (λ r, negb (has_key id r)) t.
Proof.
  induction t as [|r t IH]; simpl; [done|].
  destruct (has_key id r) eqn:Hr; simpl; [done|]. by rewrite Hr, IH.
Qed.

Lemma rows_of_marked (t : table) now id immich fname size kind :
  List.filter (has_key id) (mark_imported t now id immich fname size kind)
  = [mk_row id immich fname size kind now].
Proof.
  unfold mark_imported, insert_or_replace. simpl.
  rewrite List.filter_app, filter_own_key_removed. simpl.
  unfold has_key. simpl. by rewrite bool_decide_eq_true_2.
Qed.

Lemma rows_of_others (t : table) now id immich fname size kind id' :
  id' ≠ id →
  List.filter (has_key id') (mark_imported t now id immich fname size kind)
  = List.filter (has_key id') t.
Proof.
  intros Hne. unfold mark_imported, insert_or_replace. simpl.
  rewrite List.filter_app, filter_other_key_kept by done. simpl.
  unfold has_key at 2. simpl.
  rewrite bool_decide_eq_false_2 by congruence. apply app_nil_r.
Qed.

Lemma elem_of_get_imported_uuids (t : table) id :
  id ∈ get_imported_uuids t ↔ is_imported t id = true.
Proof.
  unfold get_imported_uuids, is_imported.
  rewrite elem_of_list_to_set, list_elem_of_fmap. split.
  - intros (row & -> & Hin).
    destruct (List.filter _ t) as [|? ?] eqn:Hf; [|done].
    assert (In row (List.filter (has_key (icloud_uuid row)) t)) as Hrow.
    { apply filter_In. split; [by apply list_elem_of_In|].
      by apply bool_decide_eq_true. }
    rewrite Hf in Hrow. destruct Hrow.
  - destruct (List.filter _ t) as [|row ?] eqn:Hf; [done|]. intros _.
    assert (In row (List.filter (has_key id) t)) as Hrow
      by (rewrite Hf; by left).
    apply filter_In in Hrow as [Hin Hkey].
    apply bool_decide_eq_true in Hkey.
    exists row. split; [done|]. by apply list_elem_of_In.
Qed.

Lemma is_imported_mark_other (t : table) now id immich fname size kind id' :
  id' ≠ id →
  is_imported (mark_imported t now id immich fname size kind) id'
  = is_imported t id'.
Proof. intros Hne. unfold is_imported. by rewrite rows_of_others. Qed.

(** The rows of any table built by [mark_imported] alone have pairwise
    distinct identifiers. *)
Lemma mark_imported_keeps_keys_unique (t : table) now id immich fname size kind :
  (∀ id', rows_for t id' ≤ 1) →
  ∀ id', rows_for (mark_imported t now id immich fname size kind) id' ≤ 1.
Proof.
  intros Huniq id'. destruct (decide (id' = id)) as [->|Hne].
  - unfold rows_for. by rewrite rows_of_marked.
  - unfold rows_for. rewrite rows_of_others by done. apply Huniq.
Qed.

(** C9.  After [mark_imported] for [id], on any prior table, [id] is
    reported imported and belongs to the set of imported identifiers;
    the table holds exactly one row for [id], the one just written, and
    as many rows as before for any other identifier.  Recording [id] a
    second time replaces that row: still one row for [id], holding the
    second record, and the table does not grow.  A table without two rows
for one identifier stays so. *)
Theorem mark_imported_upsert (t : table) (id : string)
    (now : datetime) (immich : option string) (fname : string)
    (size : Z) (kind : string)
    (now' : datetime) (immich' : option string) (fname' : string)
    (size' : Z) (kind' : string) :
  let once := mark_imported t now id immich fname size kind in
  let twice := mark_imported once now' id immich' fname' size' kind' in
  is_imported once id = true
  ∧ id ∈ get_imported_uuids once
  ∧ List.filter (has_key id) once = [mk_row id immich fname size kind now]
  ∧ rows_for once id = 1
  ∧ (∀ id', id' ≠ id → rows_for once id' = rows_for t id')
  ∧ List.filter (has_key id) twice
    = [mk_row id immich' fname' size' kind' now']
  ∧ rows_for twice id = 1
  ∧ length twice = length once
  ∧ ((∀ id', rows_for t id' ≤ 1) →
     ∀ id', rows_for once id' ≤ 1 ∧ rows_for twice id' ≤ 1).
Proof.
  cbv zeta.
  assert (is_imported (mark_imported t now id immich fname size kind) id
          = true) as Himp.
  { unfold is_imported. by rewrite rows_of_marked. }
  repeat split.
  - exact Himp.
  - by apply elem_of_get_imported_uuids.
  - apply rows_of_marked.
  - unfold rows_for. by rewrite rows_of_marked.
  - intros id' Hne. unfold rows_for. by rewrite rows_of_others.
  - apply rows_of_marked.
  - unfold rows_for. by rewrite rows_of_marked.
  - unfold mark_imported, insert_or_replace. simpl.
    rewrite List.filter_app, filter_not_key_idempotent. simpl.
    unfold has_key at 2. simpl. rewrite bool_decide_eq_true_2 by done.
    simpl. rewrite app_nil_r, !length_app. reflexivity.
  - by apply mark_imported_keeps_keys_unique.
  - by do 2 apply mark_imported_keeps_keys_unique.
Qed.

Lemma mark_imported_upsert_witness :
  rows_for (mark_imported sample_table t1 "A" (Some "immich-9") "a.jpg" 11
                          "photo") "B"
  = rows_for sample_table "B"
  ∧ rows_for (mark_imported sample_table t1 "A" (Some "immich-9") "a.jpg" 11
                            "photo") "A" ≤ 1.
Proof.
  destruct (mark_imported_upsert sample_table "A" t1 (Some "immich-9")
              "a.jpg" 11 "photo" t1 None "a.jpg" 11 "photo")
    as (_ & _ & _ & _ & Hothers & _ & _ & _ & Hunique).
  split.
  - apply Hothers. discriminate.
  - apply Hunique. intros id'. unfold rows_for, sample_table.
    destruct (decide (id' = "B")) as [->|HB]; [by rewrite rows_of_marked|].
    rewrite rows_of_others by done.
    destruct (decide (id' = "A")) as [->|HA]; [by rewrite rows_of_marked|].
    rewrite rows_of_others by done. simpl. lia.
Defined.

End LedgerProps.

(* ===================================================================== *)
(** ** Properties of the upload client                                   *)
(* ===================================================================== *)

Module ClientProps.

Import ImmichClient.
Local Open Scope Z_scope.

(** A server that answers every upload with the given response. *)
Definition answering (response : Response) : Network :=
  mk_network (λ _, Returns ()) (λ _ _, Returns response).

Definition created : Response :=
  mk_response 201 "{...}" (Returns (JObject (Some "immich-42") None)).
Definition already_there : Response :=
  mk_response 200 "{...}" (Returns (JObject (Some "immich-7") (Some true))).
Definition unavailable : Response :=
  mk_response 503 "Service Unavailable"
              (Raises (RequestException "Expecting value")).
(** A reverse proxy answering 201 with a page that is not JSON. *)
Definition created_not_json : Response :=
  mk_response 201 "<html>" (Raises (RequestException "Expecting value")).

Example upload_created :
  upload_asset (answering created) (λ _, Returns true) "a.jpg" "A" "dev"
               None None
  = Returns (mk_result true (Some "immich-42") false None).
Proof. reflexivity. Qed.

Example upload_duplicate :
  upload_asset (answering already_there) (λ _, Returns true) "a.jpg" "A" "dev"
               None None
  = Returns (mk_result true (Some "immich-7") true None).
Proof. reflexivity. Qed.

Example upload_unavailable :
  upload_asset (answering unavailable) (λ _, Returns true) "a.jpg" "A" "dev"
               None None
  = Returns (failure "Upload failed: 503 - Service Unavailable").
Proof. reflexivity. Qed.

Example upload_missing_file :
  upload_asset (answering created) (λ _, Returns false) "a.jpg" "A" "dev"
               None None
  = Returns (failure "File not found: a.jpg").
Proof. reflexivity. Qed.

Example upload_created_not_json :
  upload_asset (answering created_not_json) (λ _, Returns true) "a.jpg" "A"
               "dev" None None
  = Returns (failure "Request error: Expecting value").
Proof. reflexivity. Qed.

(** The staging directory cannot be searched: the existence test raises
    [PermissionError] and nothing in [upload_asset] catches it. *)
Example upload_unsearchable_directory :
  upload_asset (answering created)
               (λ _, Raises (OtherException "[Errno 13] Permission denied"))
               "a.jpg" "A" "dev" None None
  = Raises (OtherException "[Errno 13] Permission denied").
Proof. reflexivity. Qed.

(** The outcomes as the specification words them: always a result; a
    failure with a detail for a transport error or a status other than
    200 and 201; success for 201; success and duplicate for 200. *)
Definition outcome_as_stated (net : Network) (file_path : string)
    (data : gmap string string) (r : UploadResult) : Prop :=
  match post net file_path data with
  | Raises _ => success r = false ∧ is_Some (error r)
  | Returns response =>
      if status_code response =? 201 then success r = true
      else if status_code response =? 200 then
        success r = true ∧ duplicate r = true
      else success r = false ∧ is_Some (error r)
  end.

Lemma created_not_json_is_failure :
  ¬ ∃ r, upload_asset (answering created_not_json) (λ _, Returns true)
                      "a.jpg" "A" "dev" None None = Returns r
         ∧ outcome_as_stated (answering created_not_json) "a.jpg"
                             (request_data "A" "dev" None None) r.
Proof.
  intros (r & Hr & Hstated). rewrite upload_created_not_json in Hr.
  injection Hr as <-. vm_compute in Hstated. discriminate.
Qed.

(** The detail of a failure is a message, not the empty string. *)
Definition has_detail (r : UploadResult) : Prop :=
  success r = false ∧ ∃ detail, error r = Some detail ∧ detail ≠ "".

Lemma failure_has_detail c prefix msg :
  has_detail (failure (String c prefix +:+ msg)).
Proof. split; [done|]. eexists. split; [done|]. discriminate. Qed.

(** What an upload attempt yields once the response is in. *)
Definition outcome_of_response (response : Response) (r : UploadResult) : Prop :=
  if status_code response =? 201 then
    match json response with
    | Returns (JObject id dup) => r = mk_result true id (default false dup) None
    | _ => has_detail r
    end
  else if status_code response =? 200 then
    match json response with
    | Returns (JObject id _) => r = mk_result true id true None
    | _ => has_detail r
    end
  else has_detail r.

(** What [upload_asset] returns once the existence test has answered
    [present]. *)
Definition outcome_of_attempt (net : Network) (present : bool)
    (file_path : string) (data : gmap string string) (r : UploadResult) : Prop :=
  if present then
    match open_rb net file_path with
    | Raises _ => has_detail r
    | Returns _ =>
        match post net file_path data with
        | Raises _ => has_detail r
        | Returns response => outcome_of_response response r
        end
    end
  else has_detail r.

(** Once the existence test has answered, each handler of the [try]
    statement returns a result. *)
Lemma upload_asset_returns (net : Network) (file_exists : string → outcome bool)
    (file_path device_asset_id device_id : string)
    (file_created_at file_modified_at : option string) (present : bool) :
  file_exists file_path = Returns present →
  ∃ r, upload_asset net file_exists file_path device_asset_id device_id
                    file_created_at file_modified_at = Returns r
       ∧ outcome_of_attempt net present file_path
           (request_data device_asset_id device_id
                         file_created_at file_modified_at) r.
Proof.
  intros Hexists.
  unfold upload_asset, upload_attempt, outcome_of_attempt, outcome_of_response.
  rewrite Hexists. simpl.
  destruct present; simpl;
    [|eexists; split; [done|apply failure_has_detail]].
  destruct (open_rb net file_path) as [[]|e]; simpl;
    [|destruct e; eexists; (split; [done|apply failure_has_detail])].
  destruct (post net file_path _) as [response|e]; simpl;
    [|destruct e; eexists; (split; [done|apply failure_has_detail])].
  destruct (status_code response =? 201).
  { destruct (json response) as [[id dup|]|e]; simpl;
      [by eexists
      |eexists; split; [done|apply failure_has_detail]
      |destruct e; eexists; (split; [done|apply failure_has_detail])]. }
  destruct (status_code response =? 200).
  { destruct (json response) as [[id dup|]|e]; simpl;
      [by eexists
      |eexists; split; [done|apply failure_has_detail]
      |destruct e; eexists; (split; [done|apply failure_has_detail])]. }
  simpl. eexists; split; [done|apply failure_has_detail].
Qed.

(** C4 (amended).  The one exception [upload_asset] lets through is the
    exception of the existence test on the file, which comes before the
    [try] statement: when the test raises, [upload_asset] raises the
    same exception.  When the test answers, [upload_asset] returns a
    result and raises nothing.  The result is a failure with a non-empty
    detail when the file is missing, when opening or sending it raises,
    when the status is neither 200 nor 201, and when the status is 200
    or 201 but the body does not decode to a JSON object.  Status 201
    with a JSON object yields success with the identifier and the
    duplicate flag of the body (no duplicate when the flag is missing);
    status 200 with a JSON object yields success with duplicate set. *)
Theorem upload_asset_outcome (net : Network)
    (file_exists : string → outcome bool)
    (file_path device_asset_id device_id : string)
    (file_created_at file_modified_at : option string) :
  match file_exists file_path with
  | Raises e =>
      upload_asset net file_exists file_path device_asset_id device_id
                   file_created_at file_modified_at = Raises e
  | Returns present =>
      ∃ r,
        upload_asset net file_exists file_path device_asset_id device_id
                     file_created_at file_modified_at = Returns r
        ∧ (if present then
             match open_rb net file_path with
             | Raises _ => has_detail r
             | Returns _ =>
                 match post net file_path
                         (request_data device_asset_id device_id
                                       file_created_at file_modified_at) with
                 | Raises _ => has_detail r
                 | Returns response => outcome_of_response response r
                 end
             end
           else has_detail r)
  end.
Proof.
  destruct (file_exists file_path) as [present|e] eqn:Hexists.
  - by apply upload_asset_returns.
  - unfold upload_asset. by rewrite Hexists.
Qed.

End ClientProps.

(* ===================================================================== *)
(** ** Properties of the timestamp format                                *)
(* ===================================================================== *)

Module DatetimeProps.

Import Datetime.
Local Open Scope Z_scope.

Definition new_year_eve : datetime :=
  mk_datetime 1999 12 31 23 59 59 None eq_refl.
Definition early : datetime := mk_datetime 7 3 4 5 6 7 (Some 60) eq_refl.

Example strftime_full :
  strftime new_year_eve "%Y-%m-%dT%H:%M:%S.000Z" = "1999-12-31T23:59:59.000Z".
Proof. reflexivity. Qed.
Example strftime_padded :
  strftime early "%Y-%m-%dT%H:%M:%S.000Z" = "0007-03-04T05:06:07.000Z".
Proof. reflexivity. Qed.
Example shape_accepts : iso8601_ms_utc "0007-03-04T05:06:07.000Z" = true.
Proof. reflexivity. Qed.
Example shape_rejects_short : iso8601_ms_utc "7-03-04T05:06:07.000Z" = false.
Proof. reflexivity. Qed.
Example shape_rejects_offset :
  iso8601_ms_utc "2024-03-04T05:06:07+01:00" = false.
Proof. reflexivity. Qed.

(** A property checked on every integer of a range holds on the range. *)
Lemma checked_on_range (P : Z → bool) (lo len n : Z) :
  forallb P (seqZ lo len) = true → lo ≤ n < lo + len → P n = true.
Proof.
  intros Hall Hn. rewrite forallb_forall in Hall. apply Hall.
  apply list_elem_of_In, elem_of_seqZ. lia.
Qed.

Lemma year_shape n :
  1 ≤ n ≤ 9999 → has_shape "####" (zero_pad 4 (decimal n)) = true.
Proof.
  intros Hn.
  apply (checked_on_range
           (λ n, has_shape "####" (zero_pad 4 (decimal n))) 1 9999);
    [by vm_compute|lia].
Qed.

Lemma field_shape n :
  0 ≤ n ≤ 59 → has_shape "##" (zero_pad 2 (decimal n)) = true.
Proof.
  intros Hn.
  apply (checked_on_range
           (λ n, has_shape "##" (zero_pad 2 (decimal n))) 0 60);
    [by vm_compute|lia].
Qed.

Lemma has_shape_app t1 t2 s1 s2 :
  has_shape t1 s1 = true → has_shape t2 s2 = true →
  has_shape (t1 +:+ t2) (s1 +:+ s2) = true.
Proof.
  revert s1. induction t1 as [|t t1 IH]; intros [|c s1]; simpl; try done.
  intros [Hc H1]%andb_true_iff H2. rewrite Hc. simpl. by apply IH.
Qed.

Lemma in_range_spec lo hi n : in_range lo hi n = true → lo ≤ n ≤ hi.
Proof. unfold in_range. intros [? ?]%andb_true_iff. lia. Qed.

Lemma strftime_date_format dt :
  strftime dt "%Y-%m-%dT%H:%M:%S.000Z"
  = zero_pad 4 (decimal (year dt)) +:+ "-"
    +:+ zero_pad 2 (decimal (month dt)) +:+ "-"
    +:+ zero_pad 2 (decimal (day dt)) +:+ "T"
    +:+ zero_pad 2 (decimal (hour dt)) +:+ ":"
    +:+ zero_pad 2 (decimal (minute dt)) +:+ ":"
    +:+ zero_pad 2 (decimal (second dt)) +:+ ".000Z".
Proof. reflexivity. Qed.

(** Every [datetime] prints in the fixed shape. *)
Lemma strftime_iso8601 dt :
  iso8601_ms_utc (strftime dt "%Y-%m-%dT%H:%M:%S.000Z") = true.
Proof.
  rewrite strftime_date_format. unfold iso8601_ms_utc.
  pose proof (fields_ok dt) as Hok. unfold valid_fields in Hok.
  repeat (apply andb_true_iff in Hok as [Hok ?%in_range_spec]).
  apply in_range_spec in Hok.
  change "####-##-##T##:##:##.000Z"
    with ("####" +:+ "-" +:+ "##" +:+ "-" +:+ "##" +:+ "T"
          +:+ "##" +:+ ":" +:+ "##" +:+ ":" +:+ "##" +:+ ".000Z").
  repeat (apply has_shape_app;
          [first [by apply year_shape | apply field_shape; lia | reflexivity]|]).
  reflexivity.
Qed.

Lemma has_shape_nonempty c template s :
  has_shape (String c template) s = true → s ≠ "".
Proof. by destruct s. Qed.

End DatetimeProps.

(* ===================================================================== *)
(** ** Properties of the orchestrator: one item                          *)
(* ===================================================================== *)

Module ItemProps.

Import ExifUtils ImmichClient DrainIcloud.
Local Open Scope Z_scope.

(** The timestamps an item is uploaded with, once exported to [file]. *)
Definition created_at (host : Host) (env : ItemEnv) (photo : PhotoInfo)
    (file : string) : option string :=
  or_else (format_date (date photo))
    (strftime (fromtimestamp host (st_birthtime (stat env file))) DATE_FORMAT).

Definition modified_at (host : Host) (env : ItemEnv) (photo : PhotoInfo)
    (file : string) : option string :=
  or_else (format_date (date_modified photo))
    (strftime (fromtimestamp host (st_mtime (stat env file))) DATE_FORMAT).

(** The pause after a download, before the next item. *)
Definition paused (host : Host) (n i : nat) (photo : PhotoInfo)
    (st : State) : State :=
  if negb (is_local host photo) && (i <? n)%nat
  then log_event (EvSleep 30) st else st.

(** The state in which the upload of [file] starts. *)
Definition uploading (host : Host) (env : ItemEnv) (n i : nat)
    (photo : PhotoInfo) (file : string) (st : State) : State :=
  log_event (EvUpload file (uuid photo) DEVICE_ID
                      (created_at host env photo file)
                      (modified_at host env photo file))
            (paused host n i photo st).

(** The call the item makes to the client. *)
Definition upload_call (host : Host) (env : ItemEnv) (photo : PhotoInfo)
    (file : string) (st : State) : outcome UploadResult :=
  upload_asset (network env) (λ f, Returns (bool_decide (f ∈ staging st)))
               file (uuid photo) DEVICE_ID
               (created_at host env photo file)
               (modified_at host env photo file).

Lemma process_item_dry_run host env n i photo stats st :
  process_item host env true n i photo stats st
  = Returns (incr_skipped stats, st).
Proof. reflexivity. Qed.

Lemma process_item_export_failed host env n i photo stats st st1 :
  export_photo host env photo st = (None, st1) →
  process_item host env false n i photo stats st
  = Returns (incr_failed stats, st1).
Proof.
  intros Hexp. unfold process_item. rewrite Hexp.
  by destruct (is_local host photo).
Qed.

Lemma process_item_exported host env n i photo stats st file st1 r :
  export_photo host env photo st = (Some file, st1) →
  upload_call host env photo file st1 = Returns r →
  process_item host env false n i photo stats st
  = Returns
      (if success r then
         (if duplicate r then incr_duplicates (incr_exported stats)
          else incr_uploaded (incr_exported stats),
          try_unlink (unlink_ok env) file
            (commit_row env photo (asset_id r) (st_size (stat env file))
                        (uploading host env n i photo file st1)))
       else
         (incr_failed (incr_exported stats),
          try_unlink (unlink_ok env) file
                     (uploading host env n i photo file st1))).
Proof.
  intros Hexp Hup. unfold process_item. rewrite Hexp.
  unfold upload_call in Hup. unfold uploading, paused.
  fold (created_at host env photo file) (modified_at host env photo file).
  replace (negb (is_local host photo) && bool_decide (is_Some (Some file))
           && (i <? n)%nat)
    with (negb (is_local host photo) && (i <? n)%nat)
    by (by destruct (is_local host photo)).
  destruct (negb (is_local host photo) && (i <? n)%nat);
    repeat change (staging (log_event ?e ?s)) with (staging s);
    rewrite Hup; simpl; by destruct (success r).
Qed.

(** Every upload an item makes does return. *)
Lemma upload_call_returns host env photo file st :
  ∃ r, upload_call host env photo file st = Returns r.
Proof.
  unfold upload_call.
  destruct (ClientProps.upload_asset_returns (network env)
              (λ f, Returns (bool_decide (f ∈ staging st))) file (uuid photo)
              DEVICE_ID (created_at host env photo file)
              (modified_at host env photo file)
              (bool_decide (file ∈ staging st)) eq_refl) as (r & Hr & _).
  by exists r.
Qed.

(** *** What one export does *)

Definition export_event (host : Host) (photo : PhotoInfo) : event :=
  if is_local host photo then EvExport (uuid photo) else EvCli (uuid photo).

Lemma export_photo_effects host env photo st res st1 :
  export_photo host env photo st = (res, st1) →
  db st1 = db st
  ∧ trace st1 = trace st ++ [export_event host photo]
  ∧ staging st ⊆ staging st1
  ∧ (∀ file, res = Some file → file ∈ staging st1).
Proof.
  unfold export_photo, export_event.
  destruct (is_local host photo).
  - destruct (photo_export env) as [files|left_behind e];
      intros [= <- <-]; simpl; (repeat split; [set_solver|]).
    + intros file Hhead. apply elem_of_union_r, elem_of_list_to_set.
      destruct files; [done|]. injection Hhead as ->. by left.
    + done.
  - destruct (subprocess_run env) as [written rc err|written e].
    + destruct (rc =? 0); intros [= <- <-]; simpl;
        (repeat split; [set_solver|]); [|done].
      intros file Hhead.
      apply elem_of_elements. apply head_Some_elem_of in Hhead. exact Hhead.
    + intros [= <- <-]; simpl. repeat split; [set_solver|done].
Qed.



(** *** The events of one item *)

Lemma trace_paused host n i photo st :
  trace (paused host n i photo st)
  = trace st ++ (if negb (is_local host photo) && (i <? n)%nat
                 then [EvSleep 30] else []).
Proof.
  unfold paused. destruct (_ && _); simpl; [done|by rewrite app_nil_r].
Qed.

Lemma trace_try_unlink ok file st :
  trace (try_unlink ok file st) = trace st ++ [EvUnlink file].
Proof. unfold try_unlink. by destruct (ok file). Qed.

Lemma db_try_unlink ok file st : db (try_unlink ok file st) = db st.
Proof. unfold try_unlink. by destruct (ok file). Qed.

Lemma db_paused host n i photo st : db (paused host n i photo st) = db st.
Proof. unfold paused. by destruct (_ && _). Qed.

(** The events a live item adds to the trace, by the way it ends. *)
Definition item_events (host : Host) (env : ItemEnv) (n i : nat)
    (photo : PhotoInfo) (res : option string) (r : option UploadResult)
    : list event :=
  export_event host photo ::
  match res with
  | None => []
  | Some file =>
      (if negb (is_local host photo) && (i <? n)%nat
       then [EvSleep 30] else [])
      ++ EvUpload file (uuid photo) DEVICE_ID
                  (created_at host env photo file)
                  (modified_at host env photo file)
      :: (match r with
          | Some r => if success r then [EvCommit (uuid photo)] else []
          | None => []
          end)
      ++ [EvUnlink file]
  end.

Lemma process_item_trace host env n i photo stats st stats' st' :
  process_item host env false n i photo stats st = Returns (stats', st') →
  ∃ r, trace st'
       = trace st ++ item_events host env n i photo
                       (export_photo host env photo st).1 r.
Proof.
  destruct (export_photo host env photo st) as [[file|] st1] eqn:Hexp.
  - destruct (upload_call_returns host env photo file st1) as [r Hr].
    rewrite (process_item_exported _ _ _ _ _ _ _ _ _ _ Hexp Hr).
    apply export_photo_effects in Hexp as (_ & Htrace & _).
    intros Hret. exists (Some r). unfold item_events. simpl.
    destruct (success r); injection Hret as _ <-;
      rewrite trace_try_unlink; simpl;
      rewrite trace_paused, Htrace; by rewrite <- !app_assoc.
  - rewrite (process_item_export_failed _ _ _ _ _ _ _ _ Hexp).
    apply export_photo_effects in Hexp as (_ & Htrace & _).
    intros [= _ <-]. by exists None.
Qed.

(** *** Timestamps *)

Lemma or_else_formatted dt fallback :
  or_else (Some (strftime dt DATE_FORMAT)) fallback
  = Some (strftime dt DATE_FORMAT).
Proof.
  pose proof (DatetimeProps.strftime_iso8601 dt) as Hshape.
  apply DatetimeProps.has_shape_nonempty in Hshape.
  unfold or_else, truthy_str, DATE_FORMAT.
  by destruct (strftime dt "%Y-%m-%dT%H:%M:%S.000Z").
Qed.

(** A timestamp computed by the item: present, in the fixed format,
    and the file's own when the candidate has none. *)
Lemma timestamp_spec (candidate : option datetime) (of_file : datetime) :
  ∃ s, or_else (format_date candidate) (strftime of_file DATE_FORMAT) = Some s
       ∧ iso8601_ms_utc s = true
       ∧ s ≠ ""
       ∧ (candidate = None → s = strftime of_file DATE_FORMAT).
Proof.
  destruct candidate as [dt|]; unfold format_date.
  - rewrite or_else_formatted. eexists. split; [done|].
    split; [apply DatetimeProps.strftime_iso8601|]. split; [|done].
    eapply DatetimeProps.has_shape_nonempty,
      (DatetimeProps.strftime_iso8601 _).
  - unfold or_else, truthy_str. eexists. split; [done|].
    split; [apply DatetimeProps.strftime_iso8601|]. split; [|done].
    eapply DatetimeProps.has_shape_nonempty,
      (DatetimeProps.strftime_iso8601 _).
Qed.

Lemma request_data_timestamps id dev c1 sc c2 sm :
  let data := request_data id dev (Some (String c1 sc)) (Some (String c2 sm)) in
  data !! "fileCreatedAt" = Some (String c1 sc)
  ∧ data !! "fileModifiedAt" = Some (String c2 sm).
Proof.
  cbv zeta. unfold request_data. split.
  - rewrite lookup_insert_ne by done. by rewrite lookup_insert_eq.
  - by rewrite lookup_insert_eq.
Qed.

Definition empty_state : State := mk_state [] ∅ [].

Definition sample_env : ItemEnv :=
  mk_env (ExportReturns ["IMG_0001.JPG"])
         (CliRaises {["clip.mov.part"]} TimeoutExpired)
         (λ _, mk_stat 2048 1700000000 1700000100)
         (ClientProps.answering ClientProps.already_there)
         (λ _, true)
         LedgerProps.t0.

(** The library copy of [IMG_0001.JPG] is exported and found to be at
    the destination already. *)
Definition after_duplicate : Stats * State :=
  (mk_stats 1 0 1 0 0,
   mk_state
     [Tracker.mk_row "A" (Some "immich-7") "IMG_0001.JPG" 2048 "photo"
                     LedgerProps.t0]
     ∅
     [EvExport "A";
      EvUpload "IMG_0001.JPG" "A" "dam-icloud-drain"
               (Some "1970-01-01T00:00:00.000Z")
               (Some "1970-01-01T00:00:00.000Z");
      EvCommit "A"; EvUnlink "IMG_0001.JPG"]).

Example process_duplicate :
  process_item PlannerProps.sample_host sample_env false 1 1
               PlannerProps.photo_1 zero_stats empty_state
  = Returns after_duplicate.
Proof. vm_compute. reflexivity. Qed.

(** C8.  Every upload a processed item makes is given two timestamps
    that are present and in the format [%Y-%m-%dT%H:%M:%S.000Z]; an
    absent capture time is replaced by the birth time of the exported
    file and an absent modification time by its modification time; both
    reach the destination as form fields. *)
Theorem upload_timestamps (host : Host) (env : ItemEnv) (n i : nat)
    (photo : PhotoInfo) (stats : Stats) (st : State)
    (stats' : Stats) (st' : State) :
  process_item host env false n i photo stats st = Returns (stats', st') →
  ∃ new,
    trace st' = trace st ++ new
    ∧ ∀ file id dev c m,
        EvUpload file id dev c m ∈ new →
        ∃ sc sm,
          c = Some sc ∧ m = Some sm
          ∧ iso8601_ms_utc sc = true ∧ iso8601_ms_utc sm = true
          ∧ (date photo = None →
             sc = strftime (fromtimestamp host (st_birthtime (stat env file)))
                           DATE_FORMAT)
          ∧ (date_modified photo = None →
             sm = strftime (fromtimestamp host (st_mtime (stat env file)))
                           DATE_FORMAT)
          ∧ request_data id dev c m !! "fileCreatedAt" = Some sc
          ∧ request_data id dev c m !! "fileModifiedAt" = Some sm.
Proof.
  intros Hitem. apply process_item_trace in Hitem as [r Htrace].
  eexists. split; [exact Htrace|].
  intros file id dev c m Hin. unfold item_events in Hin.
  apply elem_of_cons in Hin as [Hin|Hin].
  { unfold export_event in Hin. by destruct (is_local host photo). }
  destruct (export_photo host env photo st).1 as [exported|];
    [|by apply elem_of_nil in Hin].
  apply elem_of_app in Hin as [Hin|Hin].
  { destruct (_ && _); [|by apply elem_of_nil in Hin].
    apply list_elem_of_singleton in Hin. discriminate. }
  apply elem_of_cons in Hin as [Hin|Hin].
  - injection Hin as -> -> -> -> ->.
    unfold created_at, modified_at.
    destruct (timestamp_spec (date photo)
                (fromtimestamp host (st_birthtime (stat env exported))))
      as (sc & -> & Hsc & Hne1 & Hsub1).
    destruct (timestamp_spec (date_modified photo)
                (fromtimestamp host (st_mtime (stat env exported))))
      as (sm & -> & Hsm & Hne2 & Hsub2).
    exists sc, sm.
    destruct sc as [|c1 sc]; [done|]. destruct sm as [|c2 sm]; [done|].
    destruct (request_data_timestamps (uuid photo) DEVICE_ID c1 sc c2 sm)
      as [Hcreated Hmodified].
    repeat split; done.
  - apply elem_of_app in Hin as [Hin|Hin].
    + destruct r as [r|]; [|by apply elem_of_nil in Hin].
      destruct (success r); [|by apply elem_of_nil in Hin].
      apply list_elem_of_singleton in Hin. discriminate.
    + apply list_elem_of_singleton in Hin. discriminate.
Qed.

Lemma upload_timestamps_witness :
  ∃ new,
    trace after_duplicate.2 = trace empty_state ++ new
    ∧ ∀ file id dev c m,
        EvUpload file id dev c m ∈ new →
        ∃ sc sm,
          c = Some sc ∧ m = Some sm
          ∧ iso8601_ms_utc sc = true ∧ iso8601_ms_utc sm = true
          ∧ (date PlannerProps.photo_1 = None →
             sc = strftime (fromtimestamp PlannerProps.sample_host
                              (st_birthtime (stat sample_env file)))
                           DATE_FORMAT)
          ∧ (date_modified PlannerProps.photo_1 = None →
             sm = strftime (fromtimestamp PlannerProps.sample_host
                              (st_mtime (stat sample_env file)))
                           DATE_FORMAT)
          ∧ request_data id dev c m !! "fileCreatedAt" = Some sc
          ∧ request_data id dev c m !! "fileModifiedAt" = Some sm.
Proof.
  apply (upload_timestamps PlannerProps.sample_host sample_env 1 1
           PlannerProps.photo_1 zero_stats empty_state
           after_duplicate.1 after_duplicate.2).
  vm_compute. reflexivity.
Defined.

(** *** The ledger and the counters after one item *)

Lemma db_uploading host env n i photo file st :
  db (uploading host env n i photo file st) = db st.
Proof. unfold uploading. simpl. apply db_paused. Qed.

Lemma db_commit_row env photo immich size st :
  db (commit_row env photo immich size st)
  = Tracker.mark_imported (db st) (now env) (uuid photo) immich
      (item_filename photo) size (item_media_type photo).
Proof. reflexivity. Qed.

Lemma trace_commit_row env photo immich size st :
  trace (commit_row env photo immich size st)
  = trace st ++ [EvCommit (uuid photo)].
Proof. reflexivity. Qed.

(** A successful upload, duplicate or not, writes the same row. *)
Lemma process_item_success_db host env n i photo stats st file st1 r
    stats' st' :
  export_photo host env photo st = (Some file, st1) →
  upload_call host env photo file st1 = Returns r →
  success r = true →
  process_item host env false n i photo stats st = Returns (stats', st') →
  db st' = Tracker.mark_imported (db st) (now env) (uuid photo) (asset_id r)
             (item_filename photo) (st_size (stat env file))
             (item_media_type photo)
  ∧ EvCommit (uuid photo) ∈ trace st'.
Proof.
  intros Hexp Hup Hok.
  rewrite (process_item_exported _ _ _ _ _ _ _ _ _ _ Hexp Hup), Hok.
  apply export_photo_effects in Hexp as (Hdb & _).
  intros [= _ <-]. split.
  - by rewrite db_try_unlink, db_commit_row, db_uploading, Hdb.
  - rewrite trace_try_unlink, trace_commit_row.
    apply elem_of_app. left. apply elem_of_app. right. by left.
Qed.

Example fresh_upload_counts host env n i photo stats st file st1 r :
  export_photo host env photo st = (Some file, st1) →
  upload_call host env photo file st1 = Returns r →
  success r = true → duplicate r = false →
  ∃ st', process_item host env false n i photo stats st
         = Returns (incr_uploaded (incr_exported stats), st').
Proof.
  intros Hexp Hup Hok Hdup.
  rewrite (process_item_exported _ _ _ _ _ _ _ _ _ _ Hexp Hup), Hok, Hdup.
  by eexists.
Qed.

(** C5.  When the upload of an exported item returns success with the
    duplicate flag, the item is processed to the end: the ledger gets
    the row a fresh upload would get (the write does not look at the
    flag), [duplicates] grows by one and [uploaded] stays as it was. *)
Theorem duplicate_is_recorded (host : Host) (env : ItemEnv) (n i : nat)
    (photo : PhotoInfo) (stats : Stats) (st : State)
    (file : string) (st1 : State) (r : UploadResult) :
  export_photo host env photo st = (Some file, st1) →
  upload_call host env photo file st1 = Returns r →
  success r = true →
  duplicate r = true →
  ∃ stats' st',
    process_item host env false n i photo stats st = Returns (stats', st')
    ∧ duplicates stats' = duplicates stats + 1
    ∧ uploaded stats' = uploaded stats
    ∧ failed stats' = failed stats
    ∧ db st' = Tracker.mark_imported (db st) (now env) (uuid photo)
                 (asset_id r) (item_filename photo)
                 (st_size (stat env file)) (item_media_type photo)
    ∧ Tracker.is_imported (db st') (uuid photo) = true
    ∧ uuid photo ∈ Tracker.get_imported_uuids (db st')
    ∧ EvCommit (uuid photo) ∈ trace st'.
Proof.
  intros Hexp Hup Hok Hdup.
  destruct (process_item host env false n i photo stats st)
    as [[stats' st']|e] eqn:Hitem;
    [|by rewrite (process_item_exported _ _ _ _ _ _ _ _ _ _ Hexp Hup)
        in Hitem].
  destruct (process_item_success_db _ _ _ _ _ _ _ _ _ _ _ _
              Hexp Hup Hok Hitem) as [Hdb Hcommit].
  rewrite (process_item_exported _ _ _ _ _ _ _ _ _ _ Hexp Hup), Hok, Hdup
    in Hitem.
  injection Hitem as <- Hst.
  assert (Tracker.is_imported (db st') (uuid photo) = true) as Himp.
  { rewrite Hdb. unfold Tracker.is_imported.
    by rewrite LedgerProps.rows_of_marked. }
  exists (incr_duplicates (incr_exported stats)), st'.
  repeat split; try done.
  by apply LedgerProps.elem_of_get_imported_uuids.
Qed.

Lemma duplicate_is_recorded_witness :
  ∃ stats' st',
    process_item PlannerProps.sample_host sample_env false 1 1
                 PlannerProps.photo_1 zero_stats empty_state
    = Returns (stats', st')
    ∧ duplicates stats' = duplicates zero_stats + 1
    ∧ uploaded stats' = uploaded zero_stats
    ∧ failed stats' = failed zero_stats
    ∧ db st' = Tracker.mark_imported (db empty_state) (now sample_env)
                 (uuid PlannerProps.photo_1) (Some "immich-7")
                 (item_filename PlannerProps.photo_1)
                 (st_size (stat sample_env "IMG_0001.JPG"))
                 (item_media_type PlannerProps.photo_1)
    ∧ Tracker.is_imported (db st') (uuid PlannerProps.photo_1) = true
    ∧ uuid PlannerProps.photo_1 ∈ Tracker.get_imported_uuids (db st')
    ∧ EvCommit (uuid PlannerProps.photo_1) ∈ trace st'.
Proof.
  apply (duplicate_is_recorded PlannerProps.sample_host sample_env 1 1
           PlannerProps.photo_1 zero_stats empty_state "IMG_0001.JPG"
           (mk_state [] {["IMG_0001.JPG"]} [EvExport "A"])
           (mk_result true (Some "immich-7") true None));
    vm_compute; reflexivity.
Defined.

End ItemProps.

(* ===================================================================== *)
(** ** Properties of the orchestrator: batches and the run               *)
(* ===================================================================== *)

Module RunProps.

Import ExifUtils ImmichClient DrainIcloud ItemProps.
Local Open Scope Z_scope.

(** *** Dry run *)

Lemma process_items_dry_run host envs n i batch stats st :
  process_items host envs true n i batch stats st
  = Returns (mk_stats (exported stats) (uploaded stats) (duplicates stats)
                      (failed stats)
                      (skipped stats + Z.of_nat (length batch)), st).
Proof.
  revert i stats. induction batch as [|photo rest IH]; intros i stats.
  - simpl. rewrite Z.add_0_r. by destruct stats.
  - cbn [process_items]. rewrite process_item_dry_run. simpl.
    rewrite IH. simpl. do 2 f_equal. f_equal. lia.
Qed.

Lemma process_batch_dry_run host envs batch st :
  process_batch host envs batch st true
  = Returns (mk_stats 0 0 0 0 (Z.of_nat (length batch)), st).
Proof. unfold process_batch. by rewrite process_items_dry_run. Qed.

(** A dry run of the whole loop: the state it ends in is the state it
    started from, and only [skipped] moves. *)
Lemma main_loop_dry_run fuel w bsb mb lo mi bn to_import total st r :
  main_loop fuel w (mk_args true bsb mb lo mi) bn to_import total st = Some r →
  ∃ total', r = Returns (total', st)
            ∧ exported total' = exported total
            ∧ uploaded total' = uploaded total
            ∧ duplicates total' = duplicates total
            ∧ failed total' = failed total.
Proof.
  assert (∀ total, Some (Returns (total, st)) = Some r →
            ∃ total', r = Returns (total', st)
                      ∧ exported total' = exported total
                      ∧ uploaded total' = uploaded total
                      ∧ duplicates total' = duplicates total
                      ∧ failed total' = failed total) as Hstop.
  { intros total0 [= <-]. exists total0. by repeat split. }
  revert bn to_import total.
  induction fuel as [|fuel IH]; intros bn to_import total;
    destruct to_import as [|photo rest]; simpl;
    try apply Hstop; [done|].
  destruct (negb (mb =? 0) && _); [apply Hstop|].
  destruct (bool_decide _); [apply Hstop|].
  rewrite process_batch_dry_run. intros Hloop.
  apply IH in Hloop as (total' & -> & He & Hu & Hd & Hf).
  exists total'. simpl in *. repeat split; try done; lia.
Qed.

(** C7.  In dry-run mode a batch of [n] items returns with the state it
    was given: the same ledger, the same staging directory and not one
    action on the outside world (no export, no upload, no ledger write,
    no deletion); its counters are [skipped = n] and zero elsewhere.
    The batching loop adds no sweep to that: a dry run ends in the
    state it started from and moves no counter but [skipped]. *)
Theorem dry_run_touches_nothing :
  (∀ host envs batch st,
      process_batch host envs batch st true
      = Returns (mk_stats 0 0 0 0 (Z.of_nat (length batch)), st))
  ∧ (∀ fuel w bsb mb lo mi bn to_import total st r,
        main_loop fuel w (mk_args true bsb mb lo mi) bn to_import total st
        = Some r →
        ∃ total', r = Returns (total', st)
                  ∧ exported total' = exported total
                  ∧ uploaded total' = uploaded total
                  ∧ duplicates total' = duplicates total
                  ∧ failed total' = failed total).
Proof.
  split.
  - apply process_batch_dry_run.
  - apply main_loop_dry_run.
Qed.

Definition sample_world : World :=
  mk_world PlannerProps.sample_host (λ _ _, sample_env) (λ _ _, true).

Definition five_gb : Z := 5 * 1024 * 1024 * 1024.

Example dry_run_scenario :
  main_loop 2 sample_world (mk_args true five_gb 0 false 0) 0
            [PlannerProps.photo_1; PlannerProps.video_2]
            zero_stats empty_state
  = Some (Returns (mk_stats 0 0 0 0 2, empty_state)).
Proof. vm_compute. reflexivity. Qed.

Lemma dry_run_touches_nothing_witness :
  ∃ total',
    Returns (mk_stats 0 0 0 0 2, empty_state) = Returns (total', empty_state)
    ∧ exported total' = exported zero_stats
    ∧ uploaded total' = uploaded zero_stats
    ∧ duplicates total' = duplicates zero_stats
    ∧ failed total' = failed zero_stats.
Proof.
  destruct dry_run_touches_nothing as [_ Hrun].
  apply (Hrun 2%nat sample_world five_gb 0 false 0 0%nat
              [PlannerProps.photo_1; PlannerProps.video_2]
              zero_stats empty_state).
  vm_compute. reflexivity.
Defined.

(** *** The sweep that ends a batch *)

Lemma staging_try_unlink ok file st :
  staging (try_unlink ok file st)
  = if ok file then staging st ∖ {[file]} else staging st.
Proof. unfold try_unlink. by destruct (ok file). Qed.

Lemma sweep_files_staging ok files st :
  staging (foldl (λ st f, try_unlink ok f st) st files)
  = staging st ∖ list_to_set (List.filter ok files).
Proof.
  revert st. induction files as [|f files IH]; intros st; simpl.
  - by rewrite difference_empty_L.
  - rewrite IH, staging_try_unlink. destruct (ok f); simpl; [|done].
    by rewrite difference_difference_l_L.
Qed.

Lemma sweep_files_db ok files st :
  db (foldl (λ st f, try_unlink ok f st) st files) = db st.
Proof.
  revert st. induction files as [|f files IH]; intros st; simpl; [done|].
  by rewrite IH, db_try_unlink.
Qed.

Lemma db_sweep ok st : db (sweep ok st) = db st.
Proof. apply sweep_files_db. Qed.

(** The sweep leaves exactly the files whose deletion raised. *)
Lemma elem_of_staging_sweep ok st file :
  file ∈ staging (sweep ok st) ↔ file ∈ staging st ∧ ok file = false.
Proof.
  unfold sweep. rewrite sweep_files_staging, elem_of_difference,
    elem_of_list_to_set, list_elem_of_In, filter_In, <- list_elem_of_In,
    elem_of_elements.
  destruct (ok file); intuition congruence.
Qed.

(** *** Taking a batch off the worklist *)

Lemma filter_none {A} (f : A → bool) (l : list A) :
  (∀ x, x ∈ l → f x = false) → List.filter f l = [].
Proof.
  induction l as [|a l IH]; intros Hall; simpl; [done|].
  rewrite Hall by (by left). apply IH. intros x Hx. apply Hall. by right.
Qed.

Lemma filter_all {A} (f : A → bool) (l : list A) :
  (∀ x, x ∈ l → f x = true) → List.filter f l = l.
Proof.
  induction l as [|a l IH]; intros Hall; simpl; [done|].
  rewrite Hall by (by left). f_equal. apply IH. intros x Hx.
  apply Hall. by right.
Qed.

Lemma remove_batch_app batch rest :
  remove_batch batch (batch ++ rest) = remove_batch batch rest.
Proof.
  unfold remove_batch. rewrite List.filter_app, filter_none; [done|].
  intros p Hp. apply negb_false_iff, bool_decide_eq_true.
  apply elem_of_list_to_set, list_elem_of_fmap. by exists p.
Qed.

Lemma remove_batch_subset batch photos p :
  p ∈ remove_batch batch photos → p ∈ photos.
Proof.
  unfold remove_batch. rewrite !list_elem_of_In, filter_In. by intros [? _].
Qed.

Lemma remove_batch_shrinks batch rest :
  batch ≠ [] →
  (length (remove_batch batch (batch ++ rest)) < length (batch ++ rest))%nat.
Proof.
  intros Hne. rewrite remove_batch_app, length_app.
  pose proof (List.filter_length_le
    (λ p, negb (bool_decide
                  (uuid p ∈ (list_to_set (uuid <$> batch) : gset string))))
    rest) as Hle.
  unfold remove_batch. destruct batch; [done|]. simpl in *. lia.
Qed.

Lemma remove_batch_nodup batch rest :
  NoDup (uuid <$> batch ++ rest) →
  remove_batch batch (batch ++ rest) = rest.
Proof.
  rewrite fmap_app. intros (_ & Hdisj & _)%NoDup_app.
  rewrite remove_batch_app. unfold remove_batch. apply filter_all.
  intros p Hp. apply negb_true_iff, bool_decide_eq_false.
  rewrite elem_of_list_to_set. intros Hin. apply (Hdisj _ Hin).
  apply list_elem_of_fmap. by exists p.
Qed.

Lemma build_batch_prefix photos max_bytes max_items :
  ∃ rest, photos = build_batch photos max_bytes max_items ++ rest.
Proof.
  destruct (BatchProps.build_batch_loop_prefix photos max_bytes max_items [] 0)
    as (taken & rest & -> & Hbatch).
  exists rest. unfold build_batch. by rewrite Hbatch.
Qed.

(** With a cap that is not negative the first item is always taken. *)
Lemma build_batch_takes_first photo photos max_bytes max_items :
  0 ≤ max_items →
  build_batch (photo :: photos) max_bytes max_items ≠ [].
Proof.
  intros Hcap. unfold build_batch. cbn [build_batch_loop].
  change (Z.of_nat (length (@nil PhotoInfo))) with 0.
  assert (negb (max_items =? 0) && (0 >=? max_items) = false) as ->.
  { destruct (Z.eqb_spec max_items 0) as [->|Hne]; [done|]. simpl.
    rewrite Z.geb_leb. apply Z.leb_gt. lia. }
  rewrite (bool_decide_eq_true_2 (@nil PhotoInfo = [])) by done.
  rewrite andb_false_r. cbn [app].
  destruct (BatchProps.build_batch_loop_prefix photos max_bytes max_items
              [photo] (0 + declared_size photo))
    as (taken & rest & _ & ->).
  done.
Qed.

(** *** Termination of the batching loop *)

Lemma main_loop_terminates fuel w args bn to_import total st :
  (length to_import ≤ fuel)%nat →
  ∃ r, main_loop fuel w args bn to_import total st = Some r.
Proof.
  revert bn to_import total st.
  induction fuel as [|fuel IH]; intros bn to_import total st Hfuel;
    destruct to_import as [|photo rest]; simpl in *;
    try (by eexists); [lia|].
  destruct (negb _ && _); [by eexists|].
  destruct (bool_decide _) eqn:Hempty; [by eexists|].
  apply bool_decide_eq_false in Hempty.
  destruct (process_batch _ _ _ _ _) as [[batch_stats st1]|e];
    [|by eexists].
  apply IH.
  destruct (build_batch_prefix (photo :: rest) (batch_size_bytes args)
              (max_items args)) as [rest' Hsplit].
  pose proof (remove_batch_shrinks _ rest' Hempty) as Hlt.
  rewrite <- Hsplit in Hlt. simpl in Hlt. lia.
Qed.

Example drain_scenario :
  main_loop 2 sample_world (mk_args false five_gb 0 false 1) 0
            [PlannerProps.photo_1; PlannerProps.video_2]
            zero_stats empty_state
  = Some (Returns
      (mk_stats 1 0 1 1 0,
       mk_state
         [Tracker.mk_row "A" (Some "immich-7") "IMG_0001.JPG" 2048 "photo"
                         LedgerProps.t0]
         ∅
         [EvExport "A";
          EvUpload "IMG_0001.JPG" "A" "dam-icloud-drain"
                   (Some "1970-01-01T00:00:00.000Z")
                   (Some "1970-01-01T00:00:00.000Z");
          EvCommit "A"; EvUnlink "IMG_0001.JPG";
          EvCli "B"; EvUnlink "clip.mov.part"])).
Proof. vm_compute. reflexivity. Qed.

(** C10.  On a worklist that is not empty, with [max_items >= 0],
    [build_batch] returns a prefix of the worklist that contains at
    least its first item.  Taking the batch off the worklist therefore
    leaves a strictly shorter worklist (exactly the rest after the
    prefix when the identifiers are pairwise distinct), and the batching
    loop, given as many iterations as the worklist has items, comes to
    an end. *)
Theorem build_batch_progress (photos : list PhotoInfo)
    (max_bytes max_items : Z) :
  photos ≠ [] →
  0 ≤ max_items →
  let batch := build_batch photos max_bytes max_items in
  (∃ first more rest,
      photos = (first :: more) ++ rest ∧ batch = first :: more)
  ∧ (length (remove_batch batch photos) < length photos)%nat
  ∧ (NoDup (uuid <$> photos) →
     remove_batch batch photos = drop (length batch) photos)
  ∧ (∀ w dry bn mb lo total st,
        ∃ r, main_loop (length photos) w
                       (mk_args dry max_bytes mb lo max_items)
                       bn photos total st = Some r).
Proof.
  intros Hne Hcap. cbv zeta.
  destruct (build_batch_prefix photos max_bytes max_items) as [rest Hsplit].
  assert (build_batch photos max_bytes max_items ≠ []) as Hbatch.
  { destruct photos as [|photo photos]; [done|].
    by apply build_batch_takes_first. }
  split; [|split; [|split]];
    [| | |intros; by apply main_loop_terminates];
    set (batch := build_batch photos max_bytes max_items) in *;
    clearbody batch; subst photos.
  - destruct batch as [|first more]; [done|]. by exists first, more, rest.
  - by apply remove_batch_shrinks.
  - intros Hnodup. by rewrite remove_batch_nodup, drop_app_length.
Qed.

Lemma build_batch_progress_witness :
  (∃ first more rest,
      [PlannerProps.photo_1; PlannerProps.video_2] = (first :: more) ++ rest
      ∧ build_batch [PlannerProps.photo_1; PlannerProps.video_2] 1000 0
        = first :: more)
  ∧ remove_batch
      (build_batch [PlannerProps.photo_1; PlannerProps.video_2] 1000 0)
      [PlannerProps.photo_1; PlannerProps.video_2]
    = drop (length (build_batch
                      [PlannerProps.photo_1; PlannerProps.video_2] 1000 0))
           [PlannerProps.photo_1; PlannerProps.video_2].
Proof.
  destruct (build_batch_progress
              [PlannerProps.photo_1; PlannerProps.video_2] 1000 0)
    as (Hprefix & _ & Hrest & _); [discriminate|lia|].
  split; [exact Hprefix|]. apply Hrest.
  apply NoDup_cons_2; [|apply NoDup_singleton].
  intros Hin%list_elem_of_singleton. discriminate.
Defined.

(** *** Export attempts *)



(** How many candidates of a list carry the identifier [id]. *)
Definition count_uuid (id : string) (photos : list PhotoInfo) : nat :=
  length (List.filter (λ p, bool_decide (uuid p = id)) photos).


Lemma count_uuid_app id a b :
  count_uuid id (a ++ b) = (count_uuid id a + count_uuid id b)%nat.
Proof. unfold count_uuid. by rewrite List.filter_app, length_app. Qed.





(** *** What stays out of the ledger *)



(** *** Identifiers that occur once *)


Lemma count_uuid_absent id photos :
  id ∉ uuid <$> photos → count_uuid id photos = 0%nat.
Proof.
  unfold count_uuid. induction photos as [|p photos IH]; simpl; [done|].
  rewrite not_elem_of_cons. intros [Hne Hout].
  rewrite bool_decide_eq_false_2 by done. by apply IH.
Qed.

Lemma count_uuid_nodup id photos :
  NoDup (uuid <$> photos) → (count_uuid id photos ≤ 1)%nat.
Proof.
  induction photos as [|p photos IH]; simpl; [unfold count_uuid; simpl; lia|].
  intros [Hout Hnodup]%NoDup_cons.
  change (p :: photos) with ([p] ++ photos). rewrite count_uuid_app.
  unfold count_uuid at 1. simpl.
  destruct (bool_decide (uuid p = id)) eqn:Hp; simpl.
  - apply bool_decide_eq_true in Hp. subst id.
    by rewrite count_uuid_absent.
  - by apply IH.
Qed.


Lemma count_uuid_disjoint_filters id (f g : PhotoInfo → bool) photos :
  (∀ p, f p && g p = false) →
  (count_uuid id (List.filter f photos) + count_uuid id (List.filter g photos)
   ≤ count_uuid id photos)%nat.
Proof.
  intros Hdisj. unfold count_uuid.
  induction photos as [|p photos IH]; simpl; [lia|].
  specialize (Hdisj p).
  destruct (f p), (g p); simpl; try done;
    destruct (bool_decide (uuid p = id)); simpl; lia.
Qed.

Lemma count_uuid_worklist id host catalog imported lo :
  (count_uuid id (get_photos_to_import host catalog imported lo)
   ≤ count_uuid id catalog)%nat.
Proof.
  rewrite PlannerProps.get_photos_to_import_filter, count_uuid_app.
  apply count_uuid_disjoint_filters. intros p.
  unfold PlannerProps.goes_local, PlannerProps.goes_cloud.
  by destruct (PlannerProps.eligible imported p), (is_local host p), lo.
Qed.

(** *** The run as a whole *)

Lemma elem_of_build_batch p photos max_bytes max_items :
  p ∈ build_batch photos max_bytes max_items → p ∈ photos.
Proof.
  destruct (build_batch_prefix photos max_bytes max_items) as [rest Hsplit].
  intros Hp. rewrite Hsplit. apply elem_of_app. by left.
Qed.



(** *** A failed export *)






(** *** Where a live run leaves the staging directory *)








Definition after_timeout : State :=
  mk_state [] ∅ [EvCli "B"; EvUnlink "clip.mov.part"].

Example timeout_run :
  main sample_world (mk_args false five_gb 0 false 0)
       [PlannerProps.video_2] empty_state
  = Some (Returns (mk_stats 0 0 0 1 0, after_timeout)).
Proof. vm_compute. reflexivity. Qed.






End RunProps.

(* ===================================================================== *)
(** ** Further properties of planning and batching                       *)
(* ===================================================================== *)

Module PlanningExtras.

Import ExifUtils DrainIcloud.
Local Open Scope Z_scope.

(** Planning keeps exactly the candidates that are not migrated, not junk,
    and either on disk or allowed to be remote: nothing eligible is
    dropped and nothing else gets in. *)
Theorem worklist_membership (host : Host) (catalog : list PhotoInfo)
    (imported_uuids : gset string) (local_only : bool) (photo : PhotoInfo) :
  photo ∈ get_photos_to_import host catalog imported_uuids local_only
  ↔ photo ∈ catalog
    ∧ (uuid photo ∉ imported_uuids)
    ∧ is_junk photo = false
    ∧ (is_local host photo = true ∨ local_only = false).
Proof.
  rewrite PlannerProps.elem_of_get_photos_to_import.
  unfold PlannerProps.eligible.
  rewrite andb_true_iff, !negb_true_iff, bool_decide_eq_false. tauto.
Qed.

Lemma filter_sublist {A} (f : A → bool) (l : list A) :
  List.filter f l `sublist_of` l.
Proof.
  induction l as [|a l IH]; simpl; [done|].
  destruct (f a); [by apply sublist_skip|by apply sublist_cons].
Qed.

(** The worklist is a stable partition of the catalog: the candidates on
    disk, in the order of the catalog, followed by the remote ones, in the
    order of the catalog. *)
Theorem worklist_stable_partition (host : Host) (catalog : list PhotoInfo)
    (imported_uuids : gset string) (local_only : bool) :
  ∃ locals clouds,
    get_photos_to_import host catalog imported_uuids local_only
    = locals ++ clouds
    ∧ locals `sublist_of` catalog
    ∧ clouds `sublist_of` catalog
    ∧ Forall (λ p, is_local host p = true) locals
    ∧ Forall (λ p, is_local host p = false) clouds.
Proof.
  exists (List.filter (PlannerProps.goes_local host imported_uuids) catalog),
    (List.filter (PlannerProps.goes_cloud host imported_uuids local_only)
                 catalog).
  split; [apply PlannerProps.get_photos_to_import_filter|].
  split; [apply filter_sublist|]. split; [apply filter_sublist|].
  split; apply Forall_forall; intros p [_ Hp]%list_elem_of_In%filter_In.
  - unfold PlannerProps.goes_local in Hp.
    by apply andb_true_iff in Hp as [_ ?].
  - unfold PlannerProps.goes_cloud in Hp.
    apply andb_true_iff in Hp as [[_ Hp]%andb_true_iff _].
    by apply negb_true_iff.
Qed.

Lemma filter_filter_same {A} (f : A → bool) (l : list A) :
  List.filter f (List.filter f l) = List.filter f l.
Proof.
  induction l as [|a l IH]; simpl; [done|].
  destruct (f a) eqn:Ha; simpl; [by rewrite Ha, IH|done].
Qed.

Lemma filter_filter_disjoint {A} (f g : A → bool) (l : list A) :
  (∀ x, g x = true → f x = false) →
  List.filter f (List.filter g l) = [].
Proof.
  intros Hdisj. apply RunProps.filter_none.
  intros x [_ Hx]%list_elem_of_In%filter_In. by apply Hdisj.
Qed.

(** Planning again over its own result changes nothing. *)
Theorem planning_idempotent (host : Host) (catalog : list PhotoInfo)
    (imported_uuids : gset string) (local_only : bool) :
  get_photos_to_import host
    (get_photos_to_import host catalog imported_uuids local_only)
    imported_uuids local_only
  = get_photos_to_import host catalog imported_uuids local_only.
Proof.
  rewrite !PlannerProps.get_photos_to_import_filter, !List.filter_app.
  rewrite !filter_filter_same.
  rewrite (filter_filter_disjoint
             (PlannerProps.goes_local host imported_uuids)
             (PlannerProps.goes_cloud host imported_uuids local_only)),
          (filter_filter_disjoint
             (PlannerProps.goes_cloud host imported_uuids local_only)
             (PlannerProps.goes_local host imported_uuids)).
  - by rewrite app_nil_r.
  - intros p. unfold PlannerProps.goes_local, PlannerProps.goes_cloud.
    by destruct (PlannerProps.eligible imported_uuids p),
      (is_local host p), local_only.
  - intros p. unfold PlannerProps.goes_local, PlannerProps.goes_cloud.
    by destruct (PlannerProps.eligible imported_uuids p),
      (is_local host p), local_only.
Qed.

Lemma nodup_of_counts photos :
  (∀ id, (RunProps.count_uuid id photos ≤ 1)%nat) → NoDup (uuid <$> photos).
Proof.
  induction photos as [|p photos IH]; intros Hcount; simpl;
    [apply NoDup_nil_2|].
  apply NoDup_cons_2.
  - intros (q & Heq & Hq)%list_elem_of_fmap.
    specialize (Hcount (uuid p)).
    change (p :: photos) with ([p] ++ photos) in Hcount.
    rewrite RunProps.count_uuid_app in Hcount.
    unfold RunProps.count_uuid at 1 in Hcount. simpl in Hcount.
    rewrite bool_decide_eq_true_2 in Hcount by done. simpl in Hcount.
    assert (0 < RunProps.count_uuid (uuid p) photos)%nat; [|lia].
    unfold RunProps.count_uuid.
    destruct (List.filter _ photos) as [|? ?] eqn:Hf; simpl; [|lia].
    assert (In q (List.filter (λ x, bool_decide (uuid x = uuid p)) photos))
      as Hin.
    { apply filter_In. split; [by apply list_elem_of_In|].
      by apply bool_decide_eq_true. }
    rewrite Hf in Hin. destruct Hin.
  - apply IH. intros id. specialize (Hcount id).
    change (p :: photos) with ([p] ++ photos) in Hcount.
    rewrite RunProps.count_uuid_app in Hcount. lia.
Qed.

Lemma worklist_nodup host catalog imported_uuids local_only :
  NoDup (uuid <$> catalog) →
  NoDup (uuid <$>
           get_photos_to_import host catalog imported_uuids local_only).
Proof.
  intros Hnodup. apply nodup_of_counts. intros id.
  pose proof (RunProps.count_uuid_worklist id host catalog imported_uuids
                local_only).
  pose proof (RunProps.count_uuid_nodup id catalog Hnodup). lia.
Qed.

(** Identifiers that are pairwise distinct in the catalog are pairwise
    distinct in the worklist: no candidate is planned twice. *)
Theorem worklist_identifiers_unique (host : Host) (catalog : list PhotoInfo)
    (imported_uuids : gset string) (local_only : bool) :
  NoDup (uuid <$> catalog) →
  NoDup (uuid <$>
           get_photos_to_import host catalog imported_uuids local_only).
Proof. apply worklist_nodup. Qed.

Lemma worklist_identifiers_unique_witness :
  NoDup (uuid <$> get_photos_to_import PlannerProps.sample_host
                    [PlannerProps.video_2; PlannerProps.photo_1] ∅ false).
Proof.
  apply (worklist_identifiers_unique PlannerProps.sample_host
           [PlannerProps.video_2; PlannerProps.photo_1] ∅ false).
  apply NoDup_cons_2; [|apply NoDup_singleton].
  intros Hin%list_elem_of_singleton. discriminate.
Defined.

End PlanningExtras.

Module BatchExtras.

Import DrainIcloud.
Local Open Scope Z_scope.

Lemma build_batch_loop_maximal photos max_bytes max_items batch taken next rest :
  build_batch_loop photos max_bytes max_items batch (total_size batch)
  = batch ++ taken →
  photos = taken ++ next :: rest →
  (max_items ≠ 0 ∧ max_items ≤ Z.of_nat (length (batch ++ taken)))
  ∨ (batch ++ taken ≠ []
     ∧ max_bytes < total_size (batch ++ taken) + declared_size next).
Proof.
  revert batch taken.
  induction photos as [|photo photos IH]; intros batch taken Hloop Hsplit.
  { by destruct taken. }
  cbn [build_batch_loop] in Hloop.
  destruct (negb (max_items =? 0) && _) eqn:Hcap.
  { assert (taken = []) as ->.
    { apply (app_inv_head batch). by rewrite app_nil_r. }
    simpl in Hsplit. injection Hsplit as -> ->. rewrite app_nil_r.
    apply andb_true_iff in Hcap as [Hset Hfull].
    apply negb_true_iff, Z.eqb_neq in Hset.
    rewrite Z.geb_leb in Hfull. apply Z.leb_le in Hfull. by left. }
  destruct ((_ >? _) && _) eqn:Hover.
  { assert (taken = []) as ->.
    { apply (app_inv_head batch). by rewrite app_nil_r. }
    simpl in Hsplit. injection Hsplit as -> ->. rewrite app_nil_r.
    apply andb_true_iff in Hover as [Hbig Hne].
    rewrite Z.gtb_ltb in Hbig. apply Z.ltb_lt in Hbig.
    apply negb_true_iff, bool_decide_eq_false in Hne. by right. }
  destruct (BatchProps.build_batch_loop_prefix photos max_bytes max_items
              (batch ++ [photo]) (total_size batch + declared_size photo))
    as (taken' & rest' & Hphotos & Hres).
  assert (taken = photo :: taken') as ->.
  { apply (app_inv_head batch). rewrite <- Hloop, Hres.
    by rewrite <- app_assoc. }
  simpl in Hsplit. injection Hsplit as Hsplit.
  replace (batch ++ photo :: taken') with ((batch ++ [photo]) ++ taken')
    by (by rewrite <- app_assoc).
  apply IH; [|done].
  rewrite BatchProps.total_size_app. rewrite Hres. done.
Qed.

(** The batch is greedy: when it leaves an item of the worklist behind,
    either the item cap is reached, or the batch is not empty and the next
    item would push it over the byte budget. *)
Theorem build_batch_maximal (photos : list PhotoInfo)
    (max_bytes max_items : Z) (next : PhotoInfo) (rest : list PhotoInfo) :
  let batch := build_batch photos max_bytes max_items in
  photos = batch ++ next :: rest →
  (max_items ≠ 0 ∧ max_items ≤ Z.of_nat (length batch))
  ∨ (batch ≠ [] ∧ max_bytes < total_size batch + declared_size next).
Proof.
  cbv zeta. intros Hsplit.
  apply (build_batch_loop_maximal photos max_bytes max_items []
           (build_batch photos max_bytes max_items) next rest);
    [done|exact Hsplit].
Qed.

Lemma build_batch_maximal_witness :
  (0 ≠ 0 ∧ 0 ≤ Z.of_nat (length (build_batch
       [PlannerProps.photo_1; PlannerProps.video_2] 1000 0)))
  ∨ (build_batch [PlannerProps.photo_1; PlannerProps.video_2] 1000 0 ≠ []
     ∧ 1000 < total_size (build_batch
                  [PlannerProps.photo_1; PlannerProps.video_2] 1000 0)
              + declared_size PlannerProps.video_2).
Proof.
  apply (build_batch_maximal [PlannerProps.photo_1; PlannerProps.video_2]
           1000 0 PlannerProps.video_2 []).
  reflexivity.
Defined.

Lemma build_batch_loop_all photos max_bytes max_items batch :
  (∀ p, p ∈ photos → 0 ≤ declared_size p) →
  total_size batch + total_size photos ≤ max_bytes →
  (max_items = 0
   ∨ Z.of_nat (length batch) + Z.of_nat (length photos) ≤ max_items) →
  build_batch_loop photos max_bytes max_items batch (total_size batch)
  = batch ++ photos.
Proof.
  revert batch.
  induction photos as [|photo photos IH]; intros batch Hpos Hfit Hcap.
  { by rewrite app_nil_r. }
  cbn [build_batch_loop].
  assert (0 ≤ total_size photos) as Hrest.
  { clear -Hpos. induction photos as [|q photos IH]; [done|].
    unfold total_size in *. simpl.
    assert (0 ≤ declared_size q) by (apply Hpos; right; by left).
    assert (0 ≤ foldr (λ photo acc, declared_size photo + acc) 0 photos).
    { apply IH. intros p [->|Hp]%elem_of_cons; apply Hpos;
        [by left|right; by right]. }
    lia. }
  change (total_size (photo :: photos))
    with (declared_size photo + total_size photos) in Hfit.
  assert (negb (max_items =? 0) && (Z.of_nat (length batch) >=? max_items)
          = false) as ->.
  { destruct Hcap as [->|Hcap]; [done|]. apply andb_false_iff. right.
    rewrite Z.geb_leb. apply Z.leb_gt. simpl in Hcap. lia. }
  assert ((total_size batch + declared_size photo >? max_bytes) = false)
    as ->.
  { rewrite Z.gtb_ltb. apply Z.ltb_ge. lia. }
  simpl. rewrite <- BatchProps.total_size_app, IH.
  - by rewrite <- app_assoc.
  - intros p Hp. apply Hpos. by right.
  - rewrite BatchProps.total_size_app. lia.
  - destruct Hcap as [->|Hcap]; [by left|right].
    rewrite length_app. simpl in *. lia.
Qed.

(** A worklist of items of non-negative declared size that fits the byte
    budget and the item cap as a whole is taken as a whole. *)
Theorem build_batch_takes_all (photos : list PhotoInfo)
    (max_bytes max_items : Z) :
  (∀ p, p ∈ photos → 0 ≤ declared_size p) →
  total_size photos ≤ max_bytes →
  max_items = 0 ∨ Z.of_nat (length photos) ≤ max_items →
  build_batch photos max_bytes max_items = photos.
Proof.
  intros Hpos Hfit Hcap.
  apply (build_batch_loop_all photos max_bytes max_items []); simpl;
    [done|done|].
  destruct Hcap; [by left|by right].
Qed.

Lemma build_batch_takes_all_witness :
  build_batch [PlannerProps.photo_1; PlannerProps.video_2]
              (5 * 1024 * 1024 * 1024) 2
  = [PlannerProps.photo_1; PlannerProps.video_2].
Proof.
  apply build_batch_takes_all.
  - intros p [->|[->|[]%elem_of_nil]%elem_of_cons]%elem_of_cons;
      by vm_compute.
  - by vm_compute.
  - right. by vm_compute.
Defined.

(** The size counted for an item is never zero, and it is the reported
    size whenever one is reported and not zero. *)
Theorem declared_size_estimate (photo : PhotoInfo) :
  declared_size photo ≠ 0
  ∧ (∀ size, original_filesize photo = Some size → size ≠ 0 →
             declared_size photo = size)
  ∧ (original_filesize photo = None ∨ original_filesize photo = Some 0 →
     declared_size photo
     = if isphoto photo then 5242880 else 104857600).
Proof.
  unfold declared_size. split; [|split].
  - destruct (original_filesize photo) as [size|]; simpl;
      [|by destruct (isphoto photo)].
    destruct (Z.eqb_spec size 0); [by destruct (isphoto photo)|done].
  - intros size -> Hne. simpl. by apply Z.eqb_neq in Hne as ->.
  - by intros [->| ->].
Qed.

Lemma declared_size_estimate_witness :
  declared_size PlannerProps.photo_1 = 2147483648
  ∧ declared_size PlannerProps.video_2 = 104857600.
Proof.
  destruct (declared_size_estimate PlannerProps.photo_1) as (_ & Hrep & _).
  destruct (declared_size_estimate PlannerProps.video_2) as (_ & _ & Hest).
  split.
  - by apply Hrep.
  - apply Hest. by left.
Defined.

End BatchExtras.

(* ===================================================================== *)
(** ** Further properties of the orchestrator                            *)
(* ===================================================================== *)

Module OrchestratorExtras.

Import ExifUtils ImmichClient DrainIcloud ItemProps.
Local Open Scope Z_scope.

(** The items a set of counters accounts for. *)
Definition processed (s : Stats) : Z :=
  uploaded s + duplicates s + failed s + skipped s.

Definition is_commit (ev : event) : bool :=
  match ev with EvCommit _ => true | _ => false end.

Definition is_sleep (ev : event) : bool :=
  match ev with EvSleep _ => true | _ => false end.

Definition count_events (f : event → bool) (tr : list event) : Z :=
  Z.of_nat (length (List.filter f tr)).

Lemma count_events_app f a b :
  count_events f (a ++ b) = count_events f a + count_events f b.
Proof.
  unfold count_events. rewrite List.filter_app, length_app. lia.
Qed.

Lemma count_events_paused f host n i photo st :
  count_events f (trace (paused host n i photo st))
  = count_events f (trace st)
    + (if negb (is_local host photo) && (i <? n)%nat
       then count_events f [EvSleep 30] else 0).
Proof.
  rewrite trace_paused, count_events_app.
  destruct (_ && _); [done|]. unfold count_events at 2. simpl. lia.
Qed.

(** What one item does to the counters and to the ledger writes. *)
Lemma process_item_accounting host env dry n i photo stats st stats' st' :
  process_item host env dry n i photo stats st = Returns (stats', st') →
  processed stats' = processed stats + 1
  ∧ exported stats ≤ exported stats' ≤ exported stats + 1
  ∧ uploaded stats ≤ uploaded stats'
  ∧ duplicates stats ≤ duplicates stats'
  ∧ failed stats ≤ failed stats'
  ∧ skipped stats ≤ skipped stats'
  ∧ (uploaded stats' + duplicates stats') - exported stats'
    ≤ (uploaded stats + duplicates stats) - exported stats
  ∧ (if dry then exported stats' = exported stats
                 ∧ failed stats' = failed stats
     else skipped stats' = skipped stats)
  ∧ count_events is_commit (trace st')
    - (uploaded stats' + duplicates stats')
    = count_events is_commit (trace st) - (uploaded stats + duplicates stats).
Proof.
  unfold processed. destruct dry.
  { rewrite process_item_dry_run. intros [= <- <-]. simpl. lia. }
  destruct (export_photo host env photo st) as [[file|] st1] eqn:Hexp.
  - destruct (upload_call_returns host env photo file st1) as [r Hr].
    rewrite (process_item_exported _ _ _ _ _ _ _ _ _ _ Hexp Hr).
    apply export_photo_effects in Hexp as (_ & Htrace & _).
    assert (count_events is_commit (trace (uploading host env n i photo file st1))
            = count_events is_commit (trace st)) as Hup.
    { unfold uploading. cbn [trace log_event].
      rewrite count_events_app, count_events_paused, Htrace,
        count_events_app.
      unfold export_event.
      destruct (is_local host photo), (_ && _); unfold count_events; simpl;
        lia. }
    destruct (success r), (duplicate r); intros [= <- <-];
      rewrite trace_try_unlink, count_events_app;
      rewrite ?trace_commit_row, ?count_events_app, Hup;
      unfold count_events; simpl; lia.
  - rewrite (process_item_export_failed _ _ _ _ _ _ _ _ Hexp).
    apply export_photo_effects in Hexp as (_ & Htrace & _).
    intros [= <- <-]. rewrite Htrace, count_events_app. unfold export_event.
    destruct (is_local host photo); unfold count_events; simpl; lia.
Qed.

Lemma process_items_accounting host envs dry n i batch stats st stats' st' :
  process_items host envs dry n i batch stats st = Returns (stats', st') →
  processed stats' = processed stats + Z.of_nat (length batch)
  ∧ exported stats ≤ exported stats'
    ≤ exported stats + Z.of_nat (length batch)
  ∧ uploaded stats ≤ uploaded stats'
  ∧ duplicates stats ≤ duplicates stats'
  ∧ failed stats ≤ failed stats'
  ∧ skipped stats ≤ skipped stats'
  ∧ (uploaded stats' + duplicates stats') - exported stats'
    ≤ (uploaded stats + duplicates stats) - exported stats
  ∧ (if dry then exported stats' = exported stats
                 ∧ failed stats' = failed stats
     else skipped stats' = skipped stats)
  ∧ count_events is_commit (trace st')
    - (uploaded stats' + duplicates stats')
    = count_events is_commit (trace st) - (uploaded stats + duplicates stats).
Proof.
  revert i stats st.
  induction batch as [|photo rest IH]; intros i stats st.
  - intros [= <- <-]. simpl. destruct dry; lia.
  - cbn [process_items].
    destruct (process_item host (envs i) dry n i photo stats st)
      as [[stats1 st1]|e] eqn:Hitem; [|done].
    simpl. intros Hrest%IH. apply process_item_accounting in Hitem.
    rewrite Nat2Z.inj_succ. destruct dry; lia.
Qed.

(** Every item of a batch ends up under exactly one of [uploaded],
    [duplicates], [failed] and [skipped]; [exported] counts the items that
    reached the upload, so it bounds [uploaded + duplicates] and is
    bounded by the size of the batch; a live batch skips nothing and a dry
    one exports and fails nothing; and the ledger is written once per
    item counted under [uploaded] or [duplicates]. *)
Theorem batch_accounting (host : Host) (envs : nat → ItemEnv)
    (batch : list PhotoInfo) (st : State) (dry : bool)
    (stats : Stats) (st' : State) :
  process_batch host envs batch st dry = Returns (stats, st') →
  uploaded stats + duplicates stats + failed stats + skipped stats
  = Z.of_nat (length batch)
  ∧ 0 ≤ uploaded stats ∧ 0 ≤ duplicates stats
  ∧ 0 ≤ failed stats ∧ 0 ≤ skipped stats
  ∧ uploaded stats + duplicates stats ≤ exported stats
    ≤ Z.of_nat (length batch)
  ∧ (if dry then exported stats = 0 ∧ failed stats = 0
     else skipped stats = 0)
  ∧ count_events is_commit (trace st')
    = count_events is_commit (trace st) + uploaded stats + duplicates stats.
Proof.
  unfold process_batch. intros Hbatch%process_items_accounting.
  unfold processed in Hbatch. simpl in Hbatch. destruct dry; lia.
Qed.

Lemma batch_accounting_total host envs batch st dry stats st' :
  process_batch host envs batch st dry = Returns (stats, st') →
  processed stats = Z.of_nat (length batch).
Proof.
  unfold process_batch. intros Hbatch%process_items_accounting.
  unfold processed in *. simpl in Hbatch. lia.
Qed.

Lemma batch_accounting_witness :
  uploaded (mk_stats 1 0 1 0 0) + duplicates (mk_stats 1 0 1 0 0)
  + failed (mk_stats 1 0 1 0 0) + skipped (mk_stats 1 0 1 0 0)
  = Z.of_nat (length [PlannerProps.photo_1]).
Proof.
  apply (batch_accounting PlannerProps.sample_host (λ _, sample_env)
           [PlannerProps.photo_1] empty_state false (mk_stats 1 0 1 0 0)
           after_duplicate.2).
  vm_compute. reflexivity.
Defined.

(** *** Draining the whole worklist *)

Lemma processed_add_stats a b :
  processed (add_stats a b) = processed a + processed b.
Proof. unfold processed, add_stats. simpl. lia. Qed.

Lemma main_loop_drains fuel w args bn to_import total st total' st' :
  max_batches args = 0 →
  0 ≤ max_items args →
  NoDup (uuid <$> to_import) →
  main_loop fuel w args bn to_import total st = Some (Returns (total', st')) →
  processed total' = processed total + Z.of_nat (length to_import).
Proof.
  intros Hnolimit Hcap. revert bn to_import total st.
  induction fuel as [|fuel IH]; intros bn to_import total st Hnodup;
    destruct to_import as [|photo rest]; cbn [main_loop];
    try (intros [= <- <-]; simpl; lia); try done.
  cbv zeta. rewrite Hnolimit. simpl negb. cbn [andb].
  rewrite bool_decide_eq_false_2
    by (by apply RunProps.build_batch_takes_first).
  destruct (process_batch _ _ _ _ _) as [[batch_stats st1]|e] eqn:Hbatch;
    [|done].
  apply batch_accounting_total in Hbatch.
  destruct (RunProps.build_batch_prefix (photo :: rest)
              (batch_size_bytes args) (max_items args)) as [rest' Hsplit].
  set (batch := build_batch (photo :: rest) (batch_size_bytes args)
                            (max_items args)) in *.
  clearbody batch. rewrite Hsplit in *.
  rewrite RunProps.remove_batch_nodup by done.
  intros Hloop%IH.
  - rewrite Hloop, processed_add_stats, Hbatch, length_app. lia.
  - rewrite fmap_app in Hnodup. by apply NoDup_app in Hnodup as (_ & _ & ?).
Qed.

(** Without a limit on the number of batches and with an item cap that
    is not negative, a run over a catalog with pairwise distinct
    identifiers accounts for every candidate of the worklist exactly once:
    as uploaded, duplicate, failed or (in a dry run) skipped. *)
Theorem unlimited_run_processes_everything (w : World) (args : Args)
    (catalog : list PhotoInfo) (st : State) (total' : Stats) (st' : State) :
  max_batches args = 0 →
  0 ≤ max_items args →
  NoDup (uuid <$> catalog) →
  main w args catalog st = Some (Returns (total', st')) →
  uploaded total' + duplicates total' + failed total' + skipped total'
  = Z.of_nat (length (get_photos_to_import (host w) catalog
                        (Tracker.get_imported_uuids (db st))
                        (local_only args))).
Proof.
  intros Hnolimit Hcap Hnodup Hrun. unfold main in Hrun.
  apply main_loop_drains in Hrun; try done.
  by apply PlanningExtras.worklist_nodup.
Qed.

Lemma unlimited_run_processes_everything_witness :
  uploaded (mk_stats 0 0 0 1 0) + duplicates (mk_stats 0 0 0 1 0)
  + failed (mk_stats 0 0 0 1 0) + skipped (mk_stats 0 0 0 1 0)
  = Z.of_nat (length (get_photos_to_import (host RunProps.sample_world)
                        [PlannerProps.video_2]
                        (Tracker.get_imported_uuids (db empty_state))
                        false)).
Proof.
  apply (unlimited_run_processes_everything RunProps.sample_world
           (mk_args false RunProps.five_gb 0 false 0)
           [PlannerProps.video_2] empty_state (mk_stats 0 0 0 1 0)
           RunProps.after_timeout).
  - reflexivity.
  - simpl. lia.
  - apply NoDup_singleton.
  - exact RunProps.timeout_run.
Defined.

(** *** The limit on the number of batches *)

Lemma build_batch_length_le photos max_bytes max_items :
  0 < max_items →
  Z.of_nat (length (build_batch photos max_bytes max_items)) ≤ max_items.
Proof.
  intros Hpos. unfold build_batch.
  apply BatchProps.build_batch_loop_items; simpl; lia.
Qed.

Lemma main_loop_batch_limit fuel w args bn to_import total st total' st' :
  0 < max_batches args →
  0 < max_items args →
  main_loop fuel w args bn to_import total st = Some (Returns (total', st')) →
  processed total'
  ≤ processed total
    + Z.max 0 (max_batches args - Z.of_nat bn) * max_items args.
Proof.
  intros Hk Hm. revert bn to_import total st.
  induction fuel as [|fuel IH]; intros bn to_import total st;
    destruct to_import as [|photo rest]; cbn [main_loop];
    try (intros [= <- <-]; nia); try done.
  cbv zeta.
  destruct (negb _ && _) eqn:Hstop; [intros [= <- <-]; nia|].
  destruct (bool_decide _); [intros [= <- <-]; nia|].
  destruct (process_batch _ _ _ _ _) as [[batch_stats st1]|e] eqn:Hbatch;
    [|done].
  apply batch_accounting_total in Hbatch.
  pose proof (build_batch_length_le (photo :: rest) (batch_size_bytes args)
                (max_items args) Hm) as Hlen.
  intros Hloop%IH. rewrite processed_add_stats in Hloop.
  apply andb_false_iff in Hstop as [Hstop|Hstop].
  { apply negb_false_iff, Z.eqb_eq in Hstop. lia. }
  rewrite Z.gtb_ltb in Hstop. apply Z.ltb_ge in Hstop.
  rewrite Nat2Z.inj_succ in *. nia.
Qed.

(** With [max_batches] and [max_items] both set, a run processes at most
    [max_batches * max_items] candidates. *)
Theorem batch_limit_bounds_run (w : World) (args : Args)
    (catalog : list PhotoInfo) (st : State) (total' : Stats) (st' : State) :
  0 < max_batches args →
  0 < max_items args →
  main w args catalog st = Some (Returns (total', st')) →
  uploaded total' + duplicates total' + failed total' + skipped total'
  ≤ max_batches args * max_items args.
Proof.
  intros Hk Hm Hrun. unfold main in Hrun.
  apply main_loop_batch_limit in Hrun; try done.
  unfold processed in *. simpl in Hrun. lia.
Qed.

Lemma batch_limit_bounds_run_witness :
  uploaded (mk_stats 1 0 1 0 0) + duplicates (mk_stats 1 0 1 0 0)
  + failed (mk_stats 1 0 1 0 0) + skipped (mk_stats 1 0 1 0 0)
  ≤ 1 * 1.
Proof.
  apply (batch_limit_bounds_run RunProps.sample_world
           (mk_args false RunProps.five_gb 1 false 1)
           [PlannerProps.photo_1; PlannerProps.video_2] empty_state
           (mk_stats 1 0 1 0 0) after_duplicate.2).
  - simpl. lia.
  - simpl. lia.
  - vm_compute. reflexivity.
Defined.

End OrchestratorExtras.

(* ===================================================================== *)
(** ** utils/tracker.py : the statistics, and more on the ledger         *)
(* ===================================================================== *)

Module TrackerStats.

Import Tracker.

(** The integer entries of the dictionary [get_stats] returns.  The two
    other entries are left out: [total_size_gb] is a rounded float and
    [last_import] a maximum over the text form of the time stamps. *)
Record LedgerStats := mk_ledger_stats {
  total : Z;
  photos : Z;
  videos : Z;
  total_size_bytes : Z
}.

(** The rows counted by [SELECT COUNT ... WHERE media_type = ?] *)
Definition count_kind (kind : string) (t : table) : Z :=
  Z.of_nat (length (List.filter (λ r, bool_decide (media_type r = kind)) t)).

(** [SELECT SUM(file_size) FROM imported_assets], [NULL] on the empty
    table; [or 0] turns [NULL] into zero. *)
Definition sum_file_size (t : table) : option Z :=
  match t with
  | [] => None
  | _ :: _ => Some (foldr (λ r acc, file_size r + acc)%Z 0%Z t)
  end.

Definition get_stats (t : table) : LedgerStats :=
  mk_ledger_stats (Z.of_nat (length t)) (count_kind "photo" t)
                  (count_kind "video" t) (default 0%Z (sum_file_size t)).

(** SQLite keeps and adds integers in 64 bits.  A size outside that
    range is refused when its row is written, and [SUM] raises
    ["integer overflow"] as soon as a running total leaves the range,
    the rows being added in the order of the table.  [sum_in_range t]
    says that neither happens on [t]: on such a table [get_stats] is the
    dictionary the method returns, on another one the method raises. *)
Definition int64 (z : Z) : bool :=
  (- 2 ^ 63 <=? z)%Z && (z <=? 2 ^ 63 - 1)%Z.

Fixpoint running_totals (acc : Z) (t : table) : bool :=
  match t with
  | [] => true
  | r :: t =>
      int64 (file_size r) && int64 (acc + file_size r)
      && running_totals (acc + file_size r)%Z t
  end.

Definition sum_in_range (t : table) : bool := running_totals 0 t.

End TrackerStats.

Module LedgerExtras.

Import Tracker TrackerStats.
Local Open Scope Z_scope.

(** The two ways of asking whether an identifier is migrated agree. *)
Theorem is_imported_iff_in_uuids (t : table) (id : string) :
  is_imported t id = true ↔ id ∈ get_imported_uuids t.
Proof. symmetry. apply LedgerProps.elem_of_get_imported_uuids. Qed.

Lemma uuids_mark_imported (t : table) now id immich fname size kind :
  get_imported_uuids (mark_imported t now id immich fname size kind)
  = {[id]} ∪ get_imported_uuids t.
Proof.
  apply set_eq. intros id'.
  rewrite elem_of_union, elem_of_singleton,
    !LedgerProps.elem_of_get_imported_uuids.
  destruct (decide (id' = id)) as [->|Hne].
  - unfold is_imported at 1. rewrite LedgerProps.rows_of_marked. tauto.
  - rewrite LedgerProps.is_imported_mark_other by done. tauto.
Qed.

(** Recording an identifier adds it to the migrated identifiers and takes
    none away. *)
Theorem mark_imported_adds_identifier (t : table) (now : datetime)
    (id : string) (immich : option string) (fname : string)
    (size : Z) (kind : string) :
  get_imported_uuids (mark_imported t now id immich fname size kind)
  = {[id]} ∪ get_imported_uuids t.
Proof. apply uuids_mark_imported. Qed.

(** Recording the same identifier twice leaves what recording it the
    second time alone leaves: the last record wins. *)
Theorem mark_imported_last_wins (t : table) (id : string)
    (now : datetime) (immich : option string) (fname : string)
    (size : Z) (kind : string)
    (now' : datetime) (immich' : option string) (fname' : string)
    (size' : Z) (kind' : string) :
  mark_imported (mark_imported t now id immich fname size kind)
                now' id immich' fname' size' kind'
  = mark_imported t now' id immich' fname' size' kind'.
Proof.
  unfold mark_imported, insert_or_replace. simpl.
  rewrite List.filter_app, LedgerProps.filter_not_key_idempotent. simpl.
  unfold has_key at 2. simpl. rewrite bool_decide_eq_true_2 by done.
  simpl. by rewrite app_nil_r.
Qed.

Lemma filter_not_key_comm a b (t : table) :
  List.filter (λ r, negb (has_key a r))
              (List.filter (λ r, negb (has_key b r)) t)
  = List.filter (λ r, negb (has_key b r))
                (List.filter (λ r, negb (has_key a r)) t).
Proof.
  induction t as [|r t IH]; simpl; [done|].
  destruct (has_key a r) eqn:Ha, (has_key b r) eqn:Hb; simpl;
    rewrite ?Ha, ?Hb; simpl; by rewrite ?IH.
Qed.

(** Records for two different identifiers can be written in either
    order: the tables hold the same rows. *)
Theorem mark_imported_commutes (t : table) (a b : string)
    (now_a now_b : datetime) (immich_a immich_b : option string)
    (fname_a fname_b : string) (size_a size_b : Z) (kind_a kind_b : string) :
  a ≠ b →
  mark_imported (mark_imported t now_a a immich_a fname_a size_a kind_a)
                now_b b immich_b fname_b size_b kind_b
  ≡ₚ mark_imported (mark_imported t now_b b immich_b fname_b size_b kind_b)
                   now_a a immich_a fname_a size_a kind_a.
Proof.
  intros Hne. unfold mark_imported, insert_or_replace. simpl.
  rewrite !List.filter_app. simpl.
  assert (has_key b (mk_row a immich_a fname_a size_a kind_a now_a) = false)
    as -> by (by apply bool_decide_eq_false_2).
  assert (has_key a (mk_row b immich_b fname_b size_b kind_b now_b) = false)
    as -> by (apply bool_decide_eq_false_2; simpl; congruence).
  simpl. rewrite (filter_not_key_comm b a), <- !app_assoc. simpl.
  apply Permutation_app_head, perm_swap.
Qed.

Lemma mark_imported_commutes_witness :
  mark_imported (mark_imported [] LedgerProps.t0 "A" None "a.jpg" 1 "photo")
                LedgerProps.t1 "B" None "b.mov" 2 "video"
  ≡ₚ mark_imported
       (mark_imported [] LedgerProps.t1 "B" None "b.mov" 2 "video")
       LedgerProps.t0 "A" None "a.jpg" 1 "photo".
Proof. apply mark_imported_commutes. discriminate. Defined.

(** *** Statistics *)

Definition sum_sizes (t : table) : Z :=
  foldr (λ r acc, file_size r + acc) 0 t.

Lemma total_size_bytes_sum t : total_size_bytes (get_stats t) = sum_sizes t.
Proof. by destruct t. Qed.

Lemma sum_sizes_app a b : sum_sizes (a ++ b) = sum_sizes a + sum_sizes b.
Proof.
  unfold sum_sizes. induction a as [|r a IH]; simpl; [done|].
  rewrite IH. lia.
Qed.

Lemma count_kind_app kind a b :
  count_kind kind (a ++ b) = count_kind kind a + count_kind kind b.
Proof.
  unfold count_kind. rewrite List.filter_app, length_app. lia.
Qed.

Lemma filter_fresh_key id (t : table) :
  rows_for t id = 0%nat →
  List.filter (λ r, negb (has_key id r)) t = t.
Proof.
  unfold rows_for. induction t as [|r t IH]; simpl; [done|].
  destruct (has_key id r); simpl; [done|]. intros Hlen. by rewrite IH.
Qed.

Lemma running_totals_app acc a b :
  running_totals acc (a ++ b)
  = running_totals acc a && running_totals (acc + sum_sizes a) b.
Proof.
  revert acc. induction a as [|r a IH]; intros acc; simpl.
  - by rewrite Z.add_0_r.
  - rewrite IH, andb_assoc. do 2 f_equal. unfold sum_sizes. simpl. lia.
Qed.

(** The first record for an identifier adds one to [total] and to the
    counter of its kind, and its size to the total size, on a table
    whose sizes and running totals SQLite can hold: the statistics are
    then defined before the record as well, and the new total size is
    a 64-bit integer. *)
Theorem stats_after_first_record (t : table) (now : datetime)
    (id : string) (immich : option string) (fname : string)
    (size : Z) (kind : string) :
  is_imported t id = false →
  sum_in_range (mark_imported t now id immich fname size kind) = true →
  let before := get_stats t in
  let after := get_stats (mark_imported t now id immich fname size kind) in
  sum_in_range t = true
  ∧ total after = total before + 1
  ∧ total_size_bytes after = total_size_bytes before + size
  ∧ int64 (total_size_bytes after) = true
  ∧ photos after = photos before + (if bool_decide (kind = "photo") then 1 else 0)
  ∧ videos after = videos before + (if bool_decide (kind = "video") then 1 else 0).
Proof.
  intros Hnew. cbv zeta.
  assert (rows_for t id = 0%nat) as Hrows.
  { unfold is_imported in Hnew. unfold rows_for.
    by destruct (List.filter (has_key id) t). }
  rewrite !total_size_bytes_sum.
  unfold mark_imported, insert_or_replace. simpl icloud_uuid.
  rewrite filter_fresh_key by done.
  unfold sum_in_range. rewrite running_totals_app. simpl.
  intros (Hbefore & (_ & Hsum)%andb_true_iff%proj1%andb_true_iff)%andb_true_iff.
  unfold get_stats. cbn [total photos videos].
  rewrite length_app, !count_kind_app, sum_sizes_app.
  unfold sum_sizes at 2 4. simpl.
  assert (∀ k, count_kind k [mk_row id immich fname size kind now]
               = if bool_decide (kind = k) then 1 else 0) as Hone.
  { intros k. unfold count_kind. simpl.
    by destruct (bool_decide (kind = k)). }
  rewrite !Hone, Z.add_0_r. repeat split; try lia; done.
Qed.

Lemma stats_after_first_record_witness :
  total (get_stats (mark_imported LedgerProps.sample_table LedgerProps.t1
                      "C" None "c.jpg" 5 "photo"))
  = total (get_stats LedgerProps.sample_table) + 1
  ∧ total_size_bytes
      (get_stats (mark_imported LedgerProps.sample_table LedgerProps.t1
                    "C" None "c.jpg" 5 "photo"))
    = total_size_bytes (get_stats LedgerProps.sample_table) + 5
  ∧ photos (get_stats (mark_imported LedgerProps.sample_table LedgerProps.t1
                         "C" None "c.jpg" 5 "photo"))
    = photos (get_stats LedgerProps.sample_table) + 1.
Proof.
  destruct (stats_after_first_record LedgerProps.sample_table LedgerProps.t1
              "C" None "c.jpg" 5 "photo")
    as (_ & Htotal & Hsize & _ & Hphotos & _); [reflexivity|reflexivity|].
  split; [exact Htotal|]. split; [exact Hsize|exact Hphotos].
Defined.

(** One more byte than SQLite can count: the model adds on, the query
    raises, and the table is not one [sum_in_range] accepts. *)
Example sum_out_of_range :
  sum_in_range [mk_row "A" None "a.mov" (2 ^ 63 - 1) "video" LedgerProps.t0;
                mk_row "B" None "b.jpg" 1 "photo" LedgerProps.t0]
  = false.
Proof. reflexivity. Qed.

(** Rows whose kind is [photo] or [video]. *)
Definition known_kind (r : ImportedAsset) : Prop :=
  media_type r = "photo" ∨ media_type r = "video".

Definition unknown_kind (r : ImportedAsset) : bool :=
  negb (bool_decide (media_type r = "photo")
        || bool_decide (media_type r = "video")).

Lemma kinds_partition (t : table) :
  count_kind "photo" t + count_kind "video" t
  + Z.of_nat (length (List.filter unknown_kind t))
  = Z.of_nat (length t).
Proof.
  unfold count_kind. induction t as [|r t IH]; simpl; [done|].
  unfold unknown_kind at 1.
  destruct (bool_decide (media_type r = "photo")) eqn:Hph;
    destruct (bool_decide (media_type r = "video")) eqn:Hvi; simpl; try lia.
  apply bool_decide_eq_true in Hph, Hvi. congruence.
Qed.

Lemma no_unknown_kind (t : table) :
  length (List.filter unknown_kind t) = 0%nat ↔ Forall known_kind t.
Proof.
  induction t as [|r t IH]; simpl; [split; [constructor|done]|].
  rewrite Forall_cons, <- IH. unfold unknown_kind at 1, known_kind.
  destruct (bool_decide (media_type r = "photo")) eqn:Hph;
    destruct (bool_decide (media_type r = "video")) eqn:Hvi; simpl;
    try apply bool_decide_eq_true in Hph;
    try apply bool_decide_eq_true in Hvi;
    try apply bool_decide_eq_false in Hph;
    try apply bool_decide_eq_false in Hvi; try tauto.
  split; [done|]. by intros [[?|?] _].
Qed.

Lemma kinds_sum_total (t : table) :
  Forall known_kind t →
  photos (get_stats t) + videos (get_stats t) = total (get_stats t).
Proof.
  intros Hknown%no_unknown_kind. unfold get_stats. cbn [total photos videos].
  pose proof (kinds_partition t). lia.
Qed.

(** The two per-kind counters never exceed [total], and add up to it
    exactly when every row is a photo or a video. *)
Theorem stats_kinds (t : table) :
  0 ≤ photos (get_stats t) ∧ 0 ≤ videos (get_stats t)
  ∧ photos (get_stats t) + videos (get_stats t) ≤ total (get_stats t)
  ∧ (photos (get_stats t) + videos (get_stats t) = total (get_stats t)
     ↔ Forall known_kind t).
Proof.
  unfold get_stats. cbn [total photos videos].
  pose proof (kinds_partition t) as Hpart.
  pose proof (no_unknown_kind t) as Hzero.
  split; [unfold count_kind; lia|]. split; [unfold count_kind; lia|].
  split; [lia|]. rewrite <- Hzero. lia.
Qed.

End LedgerExtras.

(* ===================================================================== *)
(** ** The pipeline and the ledger, the pauses, the staging directory    *)
(* ===================================================================== *)

Module PipelineExtras.

Import ExifUtils ImmichClient DrainIcloud ItemProps OrchestratorExtras.
Local Open Scope Z_scope.

(** *** What a run writes into the ledger *)

Lemma process_item_db host env dry n i photo stats st stats' st' :
  process_item host env dry n i photo stats st = Returns (stats', st') →
  db st' = db st
  ∨ ∃ immich size,
      db st' = Tracker.mark_imported (db st) (now env) (uuid photo) immich
                 (item_filename photo) size (item_media_type photo).
Proof.
  destruct dry.
  { rewrite process_item_dry_run. intros [= _ <-]. by left. }
  destruct (export_photo host env photo st) as [[file|] st1] eqn:Hexp.
  - destruct (upload_call_returns host env photo file st1) as [r Hr].
    destruct (success r) eqn:Hok.
    + intros Hitem. right. eexists _, _.
      by apply (process_item_success_db _ _ _ _ _ _ _ _ _ _ _ _
                  Hexp Hr Hok Hitem).
    + rewrite (process_item_exported _ _ _ _ _ _ _ _ _ _ Hexp Hr), Hok.
      intros [= _ <-]. left.
      apply export_photo_effects in Hexp as (Hdb & _).
      by rewrite db_try_unlink, db_uploading, Hdb.
  - rewrite (process_item_export_failed _ _ _ _ _ _ _ _ Hexp).
    intros [= _ <-]. left. by apply export_photo_effects in Hexp as (Hdb & _).
Qed.

Lemma item_media_type_known photo :
  item_media_type photo = "photo" ∨ item_media_type photo = "video".
Proof.
  unfold item_media_type, get_media_type.
  destruct (bool_decide (_ ∈ SKIP_EXTENSIONS)); simpl;
    [destruct (isphoto photo); auto|].
  destruct (bool_decide (_ ∈ PHOTO_EXTENSIONS)); simpl; [auto|].
  destruct (bool_decide (_ ∈ VIDEO_EXTENSIONS)); simpl; [auto|].
  destruct (isphoto photo); auto.
Qed.

(** What one item may do to the ledger: nothing, or a record for its own
    identifier with a known kind. *)
Definition ledger_step (photos : list PhotoInfo) (before after : State) : Prop :=
  Tracker.get_imported_uuids (db before) ⊆ Tracker.get_imported_uuids (db after)
  ∧ Tracker.get_imported_uuids (db after)
    ⊆ Tracker.get_imported_uuids (db before) ∪ list_to_set (uuid <$> photos)
  ∧ (Forall LedgerExtras.known_kind (db before) →
     Forall LedgerExtras.known_kind (db after)).

Lemma ledger_step_refl photos st : ledger_step photos st st.
Proof.
  unfold ledger_step. split; [done|]. split; [apply union_subseteq_l|done].
Qed.

Lemma ledger_step_trans photos1 photos2 photos a b c :
  ledger_step photos1 a b → ledger_step photos2 b c →
  (∀ p, p ∈ photos1 → p ∈ photos) → (∀ p, p ∈ photos2 → p ∈ photos) →
  ledger_step photos a c.
Proof.
  intros (H1 & H2 & H3) (H4 & H5 & H6) Hsub1 Hsub2.
  split; [by etrans|]. split; [|by intros ?%H3%H6].
  intros id [Hid|Hid]%H5%elem_of_union.
  - apply H2 in Hid. apply elem_of_union in Hid as [Hid|Hid];
      apply elem_of_union; [by left|right].
    apply elem_of_list_to_set, list_elem_of_fmap in Hid as (p & -> & Hp).
    apply elem_of_list_to_set, list_elem_of_fmap. exists p. auto.
  - apply elem_of_union. right.
    apply elem_of_list_to_set, list_elem_of_fmap in Hid as (p & -> & Hp).
    apply elem_of_list_to_set, list_elem_of_fmap. exists p. auto.
Qed.

Lemma ledger_step_db photos a b : db b = db a → ledger_step photos a b.
Proof.
  intros Hdb. unfold ledger_step. rewrite Hdb.
  split; [done|]. split; [apply union_subseteq_l|done].
Qed.

Lemma process_item_ledger host env dry n i photo stats st stats' st' :
  process_item host env dry n i photo stats st = Returns (stats', st') →
  ledger_step [photo] st st'.
Proof.
  intros [Hdb|(immich & size & Hdb)]%process_item_db.
  { by apply ledger_step_db. }
  unfold ledger_step. rewrite Hdb, LedgerExtras.uuids_mark_imported.
  split; [apply union_subseteq_r|]. split.
  - intros id [->%elem_of_singleton|Hid]%elem_of_union;
      apply elem_of_union; [right|by left].
    apply elem_of_list_to_set. simpl. by left.
  - intros Hknown. unfold Tracker.mark_imported, Tracker.insert_or_replace.
    apply Forall_app. split.
    + apply Forall_forall. intros r [Hr _]%list_elem_of_In%filter_In.
      rewrite Forall_forall in Hknown. by apply Hknown, list_elem_of_In.
    + apply Forall_singleton. apply item_media_type_known.
Qed.

Lemma process_items_ledger host envs dry n i batch stats st stats' st' :
  process_items host envs dry n i batch stats st = Returns (stats', st') →
  ledger_step batch st st'.
Proof.
  revert i stats st. induction batch as [|photo rest IH]; intros i stats st.
  - intros [= _ <-]. apply ledger_step_refl.
  - cbn [process_items].
    destruct (process_item host (envs i) dry n i photo stats st)
      as [[stats1 st1]|e] eqn:Hitem; [|done].
    simpl. intros Hrest%IH. apply process_item_ledger in Hitem.
    eapply ledger_step_trans; [exact Hitem|exact Hrest| |].
    + intros p ->%list_elem_of_singleton. by left.
    + intros p Hp. by right.
Qed.

Lemma main_loop_ledger fuel w args bn to_import total st total' st' :
  main_loop fuel w args bn to_import total st = Some (Returns (total', st')) →
  ledger_step to_import st st'.
Proof.
  revert bn to_import total st.
  induction fuel as [|fuel IH]; intros bn to_import total st;
    destruct to_import as [|photo rest]; cbn [main_loop];
    try (intros [= _ <-]; apply ledger_step_refl); try done.
  cbv zeta.
  destruct (negb _ && _); [intros [= _ <-]; apply ledger_step_refl|].
  destruct (bool_decide _); [intros [= _ <-]; apply ledger_step_refl|].
  destruct (process_batch _ _ _ _ _) as [[batch_stats st1]|e] eqn:Hbatch;
    [|done].
  apply process_items_ledger in Hbatch.
  intros Hloop%IH.
  eapply ledger_step_trans;
    [exact Hbatch| |intros p Hp; by eapply RunProps.elem_of_build_batch
    |intros p Hp; by eapply RunProps.remove_batch_subset].
  eapply ledger_step_trans; [|exact Hloop|intros p Hp; exact Hp
                            |intros p Hp; exact Hp].
  apply ledger_step_db. destruct (dry_run args); [done|].
  apply RunProps.db_sweep.
Qed.

(** A run never takes a migrated identifier out of the ledger, and the
    identifiers it adds are identifiers of candidates of its worklist. *)
Theorem run_only_adds_worklist_identifiers (w : World) (args : Args)
    (catalog : list PhotoInfo) (st : State) (total' : Stats) (st' : State) :
  main w args catalog st = Some (Returns (total', st')) →
  Tracker.get_imported_uuids (db st) ⊆ Tracker.get_imported_uuids (db st')
  ∧ Tracker.get_imported_uuids (db st')
    ⊆ Tracker.get_imported_uuids (db st)
      ∪ list_to_set (uuid <$> get_photos_to_import (host w) catalog
                                (Tracker.get_imported_uuids (db st))
                                (local_only args)).
Proof.
  unfold main. intros (Hkeep & Hadd & _)%main_loop_ledger. by split.
Qed.

(** A ledger that already holds a record, from an earlier run. *)
Definition migrated_state : State :=
  mk_state [Tracker.mk_row "Z" (Some "immich-0") "old.jpg" 7 "photo"
                           LedgerProps.t0]
           ∅ [].

Definition after_second_run : State :=
  mk_state
    [Tracker.mk_row "Z" (Some "immich-0") "old.jpg" 7 "photo" LedgerProps.t0;
     Tracker.mk_row "A" (Some "immich-7") "IMG_0001.JPG" 2048 "photo"
                    LedgerProps.t0]
    ∅
    [EvExport "A";
     EvUpload "IMG_0001.JPG" "A" "dam-icloud-drain"
              (Some "1970-01-01T00:00:00.000Z")
              (Some "1970-01-01T00:00:00.000Z");
     EvCommit "A"; EvUnlink "IMG_0001.JPG";
     EvCli "B"; EvUnlink "clip.mov.part"].

(** [Z] is migrated already; [A] is found at the destination and
    recorded; the download of [B] times out and [B] is not recorded. *)
Example second_run :
  main RunProps.sample_world (mk_args false RunProps.five_gb 0 false 1)
       [PlannerProps.photo_1; PlannerProps.video_2] migrated_state
  = Some (Returns (mk_stats 1 0 1 1 0, after_second_run)).
Proof. vm_compute. reflexivity. Qed.

Example second_run_identifiers :
  Tracker.get_imported_uuids (db migrated_state) = {["Z"]}
  ∧ Tracker.get_imported_uuids (db after_second_run) = {["Z"; "A"]}.
Proof. split; vm_compute; reflexivity. Qed.

Lemma run_only_adds_worklist_identifiers_witness :
  Tracker.get_imported_uuids (db migrated_state)
  ⊆ Tracker.get_imported_uuids (db after_second_run)
  ∧ Tracker.get_imported_uuids (db after_second_run)
    ⊆ Tracker.get_imported_uuids (db migrated_state)
      ∪ list_to_set
          (uuid <$> get_photos_to_import (host RunProps.sample_world)
                      [PlannerProps.photo_1; PlannerProps.video_2]
                      (Tracker.get_imported_uuids (db migrated_state))
                      false).
Proof.
  apply (run_only_adds_worklist_identifiers RunProps.sample_world
           (mk_args false RunProps.five_gb 0 false 1)
           [PlannerProps.photo_1; PlannerProps.video_2] migrated_state
           (mk_stats 1 0 1 1 0) after_second_run).
  exact second_run.
Defined.

(** Every row the pipeline writes is a photo or a video; so on a ledger
    that only the pipeline has written, the statistics' [photos] and
    [videos] add up to [total]. *)
Theorem run_keeps_kinds_known (w : World) (args : Args)
    (catalog : list PhotoInfo) (st : State) (total' : Stats) (st' : State) :
  Forall LedgerExtras.known_kind (db st) →
  main w args catalog st = Some (Returns (total', st')) →
  Forall LedgerExtras.known_kind (db st')
  ∧ TrackerStats.photos (TrackerStats.get_stats (db st'))
    + TrackerStats.videos (TrackerStats.get_stats (db st'))
    = TrackerStats.total (TrackerStats.get_stats (db st')).
Proof.
  unfold main. intros Hknown (_ & _ & Hkinds)%main_loop_ledger.
  specialize (Hkinds Hknown). split; [done|].
  by apply LedgerExtras.kinds_sum_total.
Qed.

Lemma run_keeps_kinds_known_witness :
  Forall LedgerExtras.known_kind (db after_duplicate.2)
  ∧ TrackerStats.photos (TrackerStats.get_stats (db after_duplicate.2))
    + TrackerStats.videos (TrackerStats.get_stats (db after_duplicate.2))
    = TrackerStats.total (TrackerStats.get_stats (db after_duplicate.2)).
Proof.
  apply (run_keeps_kinds_known RunProps.sample_world
           (mk_args false RunProps.five_gb 1 false 1)
           [PlannerProps.photo_1; PlannerProps.video_2] empty_state
           (mk_stats 1 0 1 0 0) after_duplicate.2).
  - constructor.
  - vm_compute. reflexivity.
Defined.

(** *** The pauses between downloads *)

Definition is_export (ev : event) : bool :=
  match ev with EvExport _ | EvCli _ => true | _ => false end.

(** The item went on to the upload: its export succeeded. *)
Definition uploads (evs : list event) : Prop :=
  ∃ file id dev c m, EvUpload file id dev c m ∈ evs.

(** What the events [evs] of the item at position [i] of [n] tell of
    the pause.  They start with the export attempt of the item and hold
    no other attempt.  A pause among them lasts 30 seconds and is the
    pause of a candidate that is not on disk, is not the last of the
    batch and was exported.  And when such a candidate is exported, the
    pause is there, once, right after the attempt and before the
    upload. *)
Definition item_pause (host : Host) (n i : nat) (photo : PhotoInfo)
    (evs : list event) : Prop :=
  ∃ rest,
    evs = export_event host photo :: rest
    ∧ Forall (λ ev, is_export ev = false) rest
    ∧ (∀ s, EvSleep s ∈ rest →
         s = 30 ∧ is_local host photo = false ∧ (i < n)%nat ∧ uploads rest)
    ∧ count_events is_sleep rest ≤ 1
    ∧ (uploads rest → is_local host photo = false → (i < n)%nat →
       ∃ more, rest = EvSleep 30 :: more
               ∧ count_events is_sleep more = 0).

Lemma item_events_pause host env n i photo res r :
  item_pause host n i photo (item_events host env n i photo res r).
Proof.
  unfold item_pause, item_events. eexists. split; [done|].
  destruct res as [file|].
  2:{ split; [constructor|]. split; [by intros s ?%elem_of_nil|].
      split; [done|]. by intros (? & ? & ? & ? & ? & ?%elem_of_nil). }
  assert (∀ commit : list event,
            (commit = [] ∨ commit = [EvCommit (uuid photo)]) →
            let tl := EvUpload file (uuid photo) DEVICE_ID
                        (created_at host env photo file)
                        (modified_at host env photo file)
                      :: commit ++ [EvUnlink file] in
            Forall (λ ev, is_export ev = false) tl
            ∧ (∀ s, EvSleep s ∉ tl)
            ∧ count_events is_sleep tl = 0
            ∧ uploads tl) as Htl.
  { intros commit [->| ->]; cbv zeta; simpl;
      (split; [by repeat constructor|]); (split; [|split; [done|]]);
      try (eexists _, _, _, _, _; by left);
      intros s Hin; repeat apply elem_of_cons in Hin as [Hin|Hin];
      try discriminate; by apply elem_of_nil in Hin. }
  set (commit := match r with
                 | Some r => if success r then [EvCommit (uuid photo)] else []
                 | None => []
                 end).
  assert (commit = [] ∨ commit = [EvCommit (uuid photo)]) as Hcommit.
  { unfold commit. destruct r as [r|]; [destruct (success r)|]; auto. }
  destruct (Htl commit Hcommit) as (Hexports & Hnosleep & Hcount & Hupload).
  destruct (is_local host photo) eqn:Hlocal; simpl.
  { split; [done|]. split; [by intros s ?%Hnosleep|].
    split; [by rewrite Hcount|]. by intros. }
  destruct (Nat.ltb_spec i n) as [Hlt|Hge]; simpl.
  - split; [by constructor|]. split.
    { intros s [[= <-]|Hin%Hnosleep]%elem_of_cons; [|done].
      repeat split; [done|].
      destruct Hupload as (f & id & dev & c & m & Hin).
      exists f, id, dev, c, m. by right. }
    split.
    { change (EvSleep 30 :: ?tl) with ([EvSleep 30] ++ tl).
      rewrite count_events_app, Hcount. unfold count_events. simpl. lia. }
    intros _ _ _. eexists. split; [done|exact Hcount].
  - split; [done|]. split; [by intros s ?%Hnosleep|].
    split; [by rewrite Hcount|]. intros. lia.
Qed.

Lemma process_items_events host envs n i batch stats st stats' st' :
  process_items host envs false n i batch stats st = Returns (stats', st') →
  ∃ per_item : list (list event),
    trace st' = trace st ++ concat per_item
    ∧ length per_item = length batch
    ∧ ∀ j photo evs,
        batch !! j = Some photo → per_item !! j = Some evs →
        item_pause host n (i + j) photo evs.
Proof.
  revert i stats st. induction batch as [|photo rest IH]; intros i stats st.
  - intros [= _ <-]. exists []. simpl. rewrite app_nil_r.
    split; [done|]. split; [done|].
    intros j p evs Hj. by rewrite lookup_nil in Hj.
  - cbn [process_items].
    destruct (process_item host (envs i) false n i photo stats st)
      as [[stats1 st1]|e] eqn:Hitem; [|done].
    simpl. intros (per_item & Htrace & Hlen & Hitems)%IH.
    apply process_item_trace in Hitem as [r Hitem].
    eexists (_ :: per_item). split; [|split].
    + simpl. by rewrite Htrace, Hitem, <- app_assoc.
    + simpl. by rewrite Hlen.
    + intros [|j] p evs; simpl.
      * intros [= <-] [= <-]. rewrite Nat.add_0_r. apply item_events_pause.
      * intros Hp Hevs. replace (i + S j)%nat with (S i + j)%nat by lia.
        by eapply Hitems.
Qed.

(** A dry run does nothing.  In a live batch the events fall into one
    stretch per item, in the order of the batch, each starting with the
    export attempt of its item.  The loop pauses for 30 seconds right
    after the export attempt of a candidate that is not on disk, is
    exported and is not the last of the batch, before the upload; it
    pauses nowhere else: not for a candidate on disk, not after a failed
    export (an item that does not go on to the upload), not after the
    last item. *)
Theorem batch_pauses (host : Host) (envs : nat → ItemEnv)
    (batch : list PhotoInfo) (st : State) (dry : bool)
    (stats : Stats) (st' : State) :
  process_batch host envs batch st dry = Returns (stats, st') →
  if dry then trace st' = trace st
  else
    ∃ per_item : list (list event),
      trace st' = trace st ++ concat per_item
      ∧ length per_item = length batch
      ∧ ∀ j photo evs,
          batch !! j = Some photo → per_item !! j = Some evs →
          item_pause host (length batch) (S j) photo evs.
Proof.
  destruct dry.
  - rewrite RunProps.process_batch_dry_run. by intros [= _ <-].
  - unfold process_batch. intros Hbatch%process_items_events. exact Hbatch.
Qed.

(** Two downloads that succeed. *)
Definition cloud_env : ItemEnv :=
  mk_env (ExportReturns []) (CliCompleted {["clip.mov"]} 0 "")
         (λ _, mk_stat 4096 1700000000 1700000100)
         (ClientProps.answering ClientProps.created) (λ _, true)
         LedgerProps.t0.

Definition video_5 : PhotoInfo :=
  mk_photo "E" (Some "trip.mp4") None None false None None.

Definition after_two_downloads : State :=
  mk_state
    [Tracker.mk_row "B" (Some "immich-42") "clip.mov" 4096 "video"
                    LedgerProps.t0;
     Tracker.mk_row "E" (Some "immich-42") "trip.mp4" 4096 "video"
                    LedgerProps.t0]
    ∅
    [EvCli "B"; EvSleep 30;
     EvUpload "clip.mov" "B" "dam-icloud-drain"
              (Some "1970-01-01T00:00:00.000Z")
              (Some "1970-01-01T00:00:00.000Z");
     EvCommit "B"; EvUnlink "clip.mov";
     EvCli "E";
     EvUpload "clip.mov" "E" "dam-icloud-drain"
              (Some "1970-01-01T00:00:00.000Z")
              (Some "1970-01-01T00:00:00.000Z");
     EvCommit "E"; EvUnlink "clip.mov"].

(** The loop pauses after the first download and not after the second,
    which is the last item. *)
Example two_downloads :
  process_batch PlannerProps.sample_host (λ _, cloud_env)
                [PlannerProps.video_2; video_5] empty_state false
  = Returns (mk_stats 2 2 0 0 0, after_two_downloads).
Proof. vm_compute. reflexivity. Qed.

Lemma batch_pauses_witness :
  ∃ per_item : list (list event),
    trace after_two_downloads = trace empty_state ++ concat per_item
    ∧ length per_item = length [PlannerProps.video_2; video_5]
    ∧ ∀ j photo evs,
        [PlannerProps.video_2; video_5] !! j = Some photo →
        per_item !! j = Some evs →
        item_pause PlannerProps.sample_host
                   (length [PlannerProps.video_2; video_5]) (S j) photo evs.
Proof.
  apply (batch_pauses PlannerProps.sample_host (λ _, cloud_env)
           [PlannerProps.video_2; video_5] empty_state false
           (mk_stats 2 2 0 0 0) after_two_downloads).
  exact two_downloads.
Defined.

(** *** The staging directory *)

Lemma main_loop_staging fuel w args bn to_import total st total' st' :
  (∀ b file, sweep_unlink_ok w b file = true) →
  dry_run args = false →
  staging st = ∅ →
  main_loop fuel w args bn to_import total st = Some (Returns (total', st')) →
  staging st' = ∅.
Proof.
  intros Hok Hlive. revert bn to_import total st.
  induction fuel as [|fuel IH]; intros bn to_import total st Hempty;
    destruct to_import as [|photo rest]; cbn [main_loop];
    try (by intros [= _ <-]); try done.
  cbv zeta.
  destruct (negb _ && _); [by intros [= _ <-]|].
  destruct (bool_decide _); [by intros [= _ <-]|].
  destruct (process_batch _ _ _ _ _) as [[batch_stats st1]|e]; [|done].
  rewrite Hlive. apply IH.
  apply set_eq. intros file. rewrite RunProps.elem_of_staging_sweep, Hok.
  split; [by intros [_ ?]|by intros ?%elem_of_empty].
Qed.

(** A live run that starts on an empty staging directory and whose sweep
    can delete what it finds ends on an empty staging directory. *)
Theorem run_leaves_staging_empty (w : World) (args : Args)
    (catalog : list PhotoInfo) (st : State) (total' : Stats) (st' : State) :
  (∀ b file, sweep_unlink_ok w b file = true) →
  dry_run args = false →
  staging st = ∅ →
  main w args catalog st = Some (Returns (total', st')) →
  staging st' = ∅.
Proof. unfold main. intros. by eapply main_loop_staging. Qed.

Lemma run_leaves_staging_empty_witness : staging RunProps.after_timeout = ∅.
Proof.
  apply (run_leaves_staging_empty RunProps.sample_world
           (mk_args false RunProps.five_gb 0 false 0)
           [PlannerProps.video_2] empty_state (mk_stats 0 0 0 1 0)
           RunProps.after_timeout);
    [reflexivity|reflexivity|reflexivity|exact RunProps.timeout_run].
Defined.

(** A download that exits with status 0 yields whatever file the staging
    directory lists first: if the tool wrote nothing, a file that was
    already there is returned as the export of this candidate. *)
Theorem download_returns_any_staged_file (host : Host) (env : ItemEnv)
    (photo : PhotoInfo) (st : State) (stderr : string) :
  is_local host photo = false →
  subprocess_run env = CliCompleted ∅ 0 stderr →
  staging st ≠ ∅ →
  ∃ file, (export_photo host env photo st).1 = Some file
          ∧ file ∈ staging st.
Proof.
  intros Hcloud Hrun Hne. unfold export_photo. rewrite Hcloud, Hrun. simpl.
  rewrite union_empty_r_L.
  destruct (elements (staging st)) as [|file files] eqn:Hel.
  - apply elements_empty_inv in Hel. by apply leibniz_equiv in Hel.
  - exists file. split; [done|]. apply elem_of_elements. rewrite Hel. by left.
Qed.

Lemma download_returns_any_staged_file_witness :
  ∃ file,
    (export_photo PlannerProps.sample_host
       (mk_env (ExportReturns []) (CliCompleted ∅ 0 "") (stat sample_env)
               (network sample_env) (λ _, true) (now sample_env))
       PlannerProps.video_2 (mk_state [] {["old.jpg"]} [])).1 = Some file
    ∧ file ∈ staging (mk_state [] {["old.jpg"]} []).
Proof.
  apply (download_returns_any_staged_file _ _ _ _ ""); try reflexivity.
  simpl. intros Heq. assert ("old.jpg" ∈ (∅ : gset string)) as Hin
    by (rewrite <- Heq; by apply elem_of_singleton).
  by apply elem_of_empty in Hin.
Defined.

(** Into an empty staging directory, a successful download returns one of
    the files the tool wrote, and a download that wrote nothing fails. *)
Theorem download_into_empty_staging (host : Host) (env : ItemEnv)
    (photo : PhotoInfo) (st : State) (written : gset string)
    (stderr : string) :
  is_local host photo = false →
  subprocess_run env = CliCompleted written 0 stderr →
  staging st = ∅ →
  match (export_photo host env photo st).1 with
  | Some file => file ∈ written
  | None => written = ∅
  end.
Proof.
  intros Hcloud Hrun Hempty. unfold export_photo.
  rewrite Hcloud, Hrun. simpl. rewrite Hempty, union_empty_l_L.
  destruct (elements written) as [|file files] eqn:Hel; simpl.
  - apply elements_empty_inv in Hel. by apply leibniz_equiv in Hel.
  - apply elem_of_elements. rewrite Hel. by left.
Qed.

Lemma download_into_empty_staging_witness :
  match (export_photo PlannerProps.sample_host
           (mk_env (ExportReturns []) (CliCompleted {["clip.mov"]} 0 "")
                   (stat sample_env) (network sample_env) (λ _, true)
                   (now sample_env))
           PlannerProps.video_2 empty_state).1 with
  | Some file => file ∈ ({["clip.mov"]} : gset string)
  | None => ({["clip.mov"]} : gset string) = ∅
  end.
Proof.
  apply (download_into_empty_staging _ _ _ _ _ ""); reflexivity.
Defined.

(** *** The staging file of one item *)

Lemma staging_uploading host env n i photo file st :
  staging (uploading host env n i photo file st) = staging st.
Proof. unfold uploading, paused. by destruct (_ && _). Qed.

Lemma staging_commit_row env photo immich size st :
  staging (commit_row env photo immich size st) = staging st.
Proof. reflexivity. Qed.

(** Once an item is exported, its staging file is deleted whatever the
    upload returns (created, duplicate or failure), and nothing else is
    touched in the staging directory; if the deletion raises, the
    directory stays as the export left it. *)
Theorem exported_file_is_deleted (host : Host) (env : ItemEnv) (n i : nat)
    (photo : PhotoInfo) (stats : Stats) (st : State)
    (file : string) (st1 : State) (stats' : Stats) (st' : State) :
  export_photo host env photo st = (Some file, st1) →
  process_item host env false n i photo stats st = Returns (stats', st') →
  staging st'
  = if unlink_ok env file then staging st1 ∖ {[file]} else staging st1.
Proof.
  intros Hexp.
  destruct (upload_call_returns host env photo file st1) as [r Hr].
  rewrite (process_item_exported _ _ _ _ _ _ _ _ _ _ Hexp Hr).
  destruct (success r); intros [= _ <-];
    rewrite RunProps.staging_try_unlink;
    by rewrite ?staging_commit_row, staging_uploading.
Qed.

Lemma exported_file_is_deleted_witness :
  staging after_duplicate.2
  = if unlink_ok sample_env "IMG_0001.JPG"
    then staging (mk_state [] {["IMG_0001.JPG"]} [EvExport "A"])
         ∖ {["IMG_0001.JPG"]}
    else staging (mk_state [] {["IMG_0001.JPG"]} [EvExport "A"]).
Proof.
  apply (exported_file_is_deleted PlannerProps.sample_host sample_env 1 1
           PlannerProps.photo_1 zero_stats empty_state "IMG_0001.JPG"
           (mk_state [] {["IMG_0001.JPG"]} [EvExport "A"])
           after_duplicate.1 after_duplicate.2);
    vm_compute; reflexivity.
Defined.

(** *** A candidate on disk, a server that accepts it *)

(** For a candidate on disk whose copy succeeds and whose upload the
    server answers with 201 and a JSON object, the item is counted as
    uploaded (as duplicate when the body says so), the ledger holds one
    row for it with the identifier the server assigned and the size of the
    exported file, and the upload never stumbles on a missing file. *)
Theorem local_item_is_uploaded (host : Host) (env : ItemEnv) (n i : nat)
    (photo : PhotoInfo) (stats : Stats) (st : State)
    (file : string) (more : list string) (response : Response)
    (immich : option string) (dup : option bool) :
  is_local host photo = true →
  photo_export env = ExportReturns (file :: more) →
  open_rb (network env) file = Returns () →
  (∀ data, post (network env) file data = Returns response) →
  status_code response = 201 →
  json response = Returns (JObject immich dup) →
  ∃ st',
    process_item host env false n i photo stats st
    = Returns ((if default false dup then incr_duplicates (incr_exported stats)
                else incr_uploaded (incr_exported stats)), st')
    ∧ List.filter (Tracker.has_key (uuid photo)) (db st')
      = [Tracker.mk_row (uuid photo) immich (item_filename photo)
                        (st_size (stat env file)) (item_media_type photo)
                        (now env)].
Proof.
  intros Hlocal Hcopy Hopen Hpost Hstatus Hjson.
  set (st1 := write_files (list_to_set (file :: more))
                (log_event (EvExport (uuid photo)) st)).
  assert (export_photo host env photo st = (Some file, st1)) as Hexp.
  { unfold export_photo. by rewrite Hlocal, Hcopy. }
  assert (upload_call host env photo file st1
          = Returns (mk_result true immich (default false dup) None)) as Hup.
  { unfold upload_call, upload_asset.
    rewrite bool_decide_eq_true_2.
    - cbn [negb]. unfold upload_attempt. rewrite Hopen. simpl.
      rewrite Hpost. simpl. rewrite Hstatus, Hjson. done.
    - unfold st1. simpl. apply elem_of_union_r, elem_of_union_l.
      by apply elem_of_singleton. }
  rewrite (process_item_exported _ _ _ _ _ _ _ _ _ _ Hexp Hup). simpl.
  eexists. split; [done|].
  rewrite db_try_unlink, db_commit_row. apply LedgerProps.rows_of_marked.
Qed.

Lemma local_item_is_uploaded_witness :
  ∃ st',
    process_item PlannerProps.sample_host
      (mk_env (ExportReturns ["IMG_0001.JPG"]) (subprocess_run sample_env)
              (stat sample_env) (ClientProps.answering ClientProps.created)
              (λ _, true) (now sample_env))
      false 1 1 PlannerProps.photo_1 zero_stats empty_state
    = Returns (incr_uploaded (incr_exported zero_stats), st')
    ∧ List.filter (Tracker.has_key "A") (db st')
      = [Tracker.mk_row "A" (Some "immich-42") "IMG_0001.JPG" 2048 "photo"
                        LedgerProps.t0].
Proof.
  apply (local_item_is_uploaded PlannerProps.sample_host
           (mk_env (ExportReturns ["IMG_0001.JPG"]) (subprocess_run sample_env)
              (stat sample_env) (ClientProps.answering ClientProps.created)
              (λ _, true) (now sample_env))
           1 1 PlannerProps.photo_1 zero_stats empty_state "IMG_0001.JPG" []
           ClientProps.created (Some "immich-42") None); reflexivity.
Defined.

End PipelineExtras.

(* ===================================================================== *)
(** ** check_progress.py : the progress report                           *)
(* ===================================================================== *)

Module CheckProgress.

Import DrainIcloud.
Local Open Scope Z_scope.

(** The counters of the report.  The size of the library on disk, a walk
    over the file system printed as a float, is left out. *)
Record Progress := mk_progress {
  total : Z;
  local : Z;
  cloud : Z;
  already_imported : Z;
  ready_to_import : Z
}.

(** The [for p in photos] loop over the four counters. *)
Fixpoint count_photos (host : Host) (imported_uuids : gset string)
    (photos : list PhotoInfo) (acc : Progress) : Progress :=
  match photos with
  | [] => acc
  | p :: rest =>
      count_photos host imported_uuids rest
        (if bool_decide (uuid p ∈ imported_uuids) then
           mk_progress (total acc) (local acc) (cloud acc)
                       (already_imported acc + 1) (ready_to_import acc)
         else if is_local host p then
           mk_progress (total acc) (local acc + 1) (cloud acc)
                       (already_imported acc) (ready_to_import acc + 1)
         else
           mk_progress (total acc) (local acc) (cloud acc + 1)
                       (already_imported acc) (ready_to_import acc))
  end.

(** [photos] is [db.photos()], [imported_uuids] is
    [tracker.get_imported_uuids()]. *)
Definition sync_progress (host : Host) (photos : list PhotoInfo)
    (imported_uuids : gset string) : Progress :=
  count_photos host imported_uuids photos
    (mk_progress (Z.of_nat (length photos)) 0 0 0 0).

End CheckProgress.

Module CheckProgressProps.

Import DrainIcloud CheckProgress.
Local Open Scope Z_scope.

Definition count_if (f : PhotoInfo → bool) (photos : list PhotoInfo) : Z :=
  Z.of_nat (length (List.filter f photos)).

Lemma count_photos_spec host imported photos acc :
  let after := count_photos host imported photos acc in
  total after = total acc
  ∧ already_imported after
    = already_imported acc
      + count_if (λ p, bool_decide (uuid p ∈ imported)) photos
  ∧ local after
    = local acc
      + count_if (λ p, negb (bool_decide (uuid p ∈ imported))
                       && is_local host p) photos
  ∧ cloud after
    = cloud acc
      + count_if (λ p, negb (bool_decide (uuid p ∈ imported))
                       && negb (is_local host p)) photos
  ∧ ready_to_import after - local after = ready_to_import acc - local acc.
Proof.
  cbv zeta. unfold count_if. revert acc.
  induction photos as [|p rest IH]; intros acc; simpl; [lia|].
  specialize (IH
    (if bool_decide (uuid p ∈ imported) then
       mk_progress (total acc) (local acc) (cloud acc)
                   (already_imported acc + 1) (ready_to_import acc)
     else if is_local host p then
       mk_progress (total acc) (local acc + 1) (cloud acc)
                   (already_imported acc) (ready_to_import acc + 1)
     else
       mk_progress (total acc) (local acc) (cloud acc + 1)
                   (already_imported acc) (ready_to_import acc))).
  destruct (bool_decide (uuid p ∈ imported)), (is_local host p); simpl in *;
    lia.
Qed.

Lemma count_if_le (f g : PhotoInfo → bool) photos :
  (∀ p, p ∈ photos → f p = true → g p = true) →
  count_if f photos ≤ count_if g photos.
Proof.
  unfold count_if. induction photos as [|p rest IH]; intros Himp; simpl;
    [lia|].
  assert (Z.of_nat (length (List.filter f rest))
          ≤ Z.of_nat (length (List.filter g rest))) as Hrest.
  { apply IH. intros q Hq. apply Himp. by right. }
  destruct (f p) eqn:Hf.
  - rewrite (Himp p) by (done || by left). simpl. lia.
  - destruct (g p); simpl; lia.
Qed.

Lemma count_if_ext (f g : PhotoInfo → bool) photos :
  (∀ p, p ∈ photos → f p = g p) → count_if f photos = count_if g photos.
Proof.
  intros Heq. apply Z.le_antisymm; apply count_if_le; intros p Hp;
    rewrite (Heq p Hp); done.
Qed.

(** The report partitions the library: every photo is counted once, as
    already imported, downloaded or still in the cloud.  [ready_to_import]
    is the number of downloaded photos; it bounds what a planning with
    [--local-only] returns and equals it when no downloaded photo is a
    junk file, which the report does not look at. *)
Theorem progress_report (host : Host) (photos : list PhotoInfo)
    (imported_uuids : gset string) :
  let report := sync_progress host photos imported_uuids in
  let planned :=
    Z.of_nat (length (get_photos_to_import host photos imported_uuids true)) in
  total report = Z.of_nat (length photos)
  ∧ already_imported report + local report + cloud report = total report
  ∧ ready_to_import report = local report
  ∧ planned ≤ ready_to_import report
  ∧ ((∀ p, p ∈ photos → is_junk p = false) →
     planned = ready_to_import report).
Proof.
  cbv zeta. unfold sync_progress.
  destruct (count_photos_spec host imported_uuids photos
              (mk_progress (Z.of_nat (length photos)) 0 0 0 0))
    as (Htotal & Halready & Hlocal & Hcloud & Hready).
  simpl in Htotal, Halready, Hlocal, Hcloud, Hready.
  assert (Z.of_nat (length (get_photos_to_import host photos
                              imported_uuids true))
          = count_if (PlannerProps.goes_local host imported_uuids) photos)
    as Hplanned.
  { rewrite PlannerProps.get_photos_to_import_filter, length_app.
    rewrite (RunProps.filter_none
               (PlannerProps.goes_cloud host imported_uuids true)).
    - unfold count_if. simpl. lia.
    - intros p _. unfold PlannerProps.goes_cloud. apply andb_false_r. }
  split; [done|]. split.
  - rewrite Htotal, Halready, Hlocal, Hcloud. unfold count_if. clear.
    induction photos as [|p rest IH]; simpl; [done|].
    destruct (bool_decide (uuid p ∈ imported_uuids)), (is_local host p);
      simpl; lia.
  - split; [lia|]. rewrite Hplanned.
    replace (ready_to_import _) with
      (count_if (λ p, negb (bool_decide (uuid p ∈ imported_uuids))
                      && is_local host p) photos) by lia.
    split.
    + apply count_if_le. intros p _.
      unfold PlannerProps.goes_local, PlannerProps.eligible.
      by destruct (bool_decide _), (is_junk p), (is_local host p).
    + intros Hclean. apply count_if_ext. intros p Hp.
      unfold PlannerProps.goes_local, PlannerProps.eligible.
      rewrite (Hclean p Hp). by destruct (bool_decide _).
Qed.

Lemma progress_report_witness :
  Z.of_nat (length (get_photos_to_import PlannerProps.sample_host
                      [PlannerProps.video_2; PlannerProps.photo_1]
                      ∅ true))
  = ready_to_import (sync_progress PlannerProps.sample_host
                       [PlannerProps.video_2; PlannerProps.photo_1] ∅).
Proof.
  destruct (progress_report PlannerProps.sample_host
              [PlannerProps.video_2; PlannerProps.photo_1] ∅)
    as (_ & _ & _ & _ & Hexact).
  apply Hexact.
  intros p [->|[->|[]%elem_of_nil]%elem_of_cons]%elem_of_cons;
    by vm_compute.
Defined.

Example report_counts_junk :
  ready_to_import (sync_progress
    (mk_host (λ _, true) (λ _, PlannerProps.epoch))
    [mk_photo "D" (Some "IMG_0001.THM") (Some "/lib/IMG_0001.THM") None
              true None None] ∅) = 1
  ∧ get_photos_to_import (mk_host (λ _, true) (λ _, PlannerProps.epoch))
      [mk_photo "D" (Some "IMG_0001.THM") (Some "/lib/IMG_0001.THM") None
                true None None] ∅ true = [].
Proof. split; vm_compute; reflexivity. Qed.

End CheckProgressProps.

(* ===================================================================== *)
(** ** Further properties of the classifier                              *)
(* ===================================================================== *)

Module ClassifierExtras.

Import ExifUtils.

Lemma lower_char_idempotent c : lower_char (lower_char c) = lower_char c.
Proof. destruct c as [[] [] [] [] [] [] [] []]; reflexivity. Qed.

Lemma lower_idempotent s : lower (lower s) = lower s.
Proof.
  induction s as [|c s IH]; simpl; [done|].
  by rewrite lower_char_idempotent, IH.
Qed.

Lemma is_dot_lower_char c : is_dot (lower_char c) = is_dot c.
Proof.
  destruct (is_dot c) eqn:Hc.
  - apply ClassifierProps.is_dot_true in Hc. by subst c.
  - destruct (is_dot (lower_char c)) eqn:Hl; [|done].
    apply ClassifierProps.is_dot_true, ClassifierProps.lower_char_is_dot in Hl.
    subst c. discriminate.
Qed.

Lemma contains_dot_lower s : contains_dot (lower s) = contains_dot s.
Proof.
  induction s as [|c s IH]; simpl; [done|].
  by rewrite is_dot_lower_char, IH.
Qed.

Lemma rsplit_last_lower s : rsplit_last (lower s) = lower (rsplit_last s).
Proof.
  induction s as [|c s IH]; simpl; [done|].
  rewrite contains_dot_lower, is_dot_lower_char.
  destruct (contains_dot s); [done|]. by destruct (is_dot c).
Qed.

Lemma get_extension_lower s : _get_extension (lower s) = _get_extension s.
Proof.
  unfold _get_extension.
  by rewrite contains_dot_lower, rsplit_last_lower, lower_idempotent.
Qed.

(** Classification ignores case: two names that differ only in the case
    of their letters get the same extension, the same media type and the
    same skip decision. *)
Theorem classification_ignores_case (f g : string) :
  lower f = lower g →
  _get_extension f = _get_extension g
  ∧ get_media_type f = get_media_type g
  ∧ should_skip_file f = should_skip_file g.
Proof.
  intros Heq.
  assert (_get_extension f = _get_extension g) as Hext.
  { by rewrite <- (get_extension_lower f), <- (get_extension_lower g), Heq. }
  unfold get_media_type, should_skip_file. by rewrite Hext.
Qed.

Lemma classification_ignores_case_witness :
  _get_extension "IMG_0001.JPG" = _get_extension "img_0001.jpg"
  ∧ get_media_type "IMG_0001.JPG" = get_media_type "img_0001.jpg"
  ∧ should_skip_file "IMG_0001.JPG" = should_skip_file "img_0001.jpg".
Proof. apply classification_ignores_case. reflexivity. Defined.

(** Only what follows the last dot counts: names with the same dot-free
    ending are classified alike, whatever comes before the dot; a name
    without a dot has the empty extension, no media type and is not
    skipped. *)
Theorem classification_by_last_extension (stem stem' ending name : string) :
  contains_dot ending = false →
  contains_dot name = false →
  _get_extension (stem +:+ "." +:+ ending) = "." +:+ lower ending
  ∧ get_media_type (stem +:+ "." +:+ ending)
    = get_media_type (stem' +:+ "." +:+ ending)
  ∧ should_skip_file (stem +:+ "." +:+ ending)
    = should_skip_file (stem' +:+ "." +:+ ending)
  ∧ _get_extension name = ""
  ∧ get_media_type name = None
  ∧ should_skip_file name = false.
Proof.
  intros Hending Hname.
  assert (∀ s, _get_extension (s +:+ "." +:+ ending) = "." +:+ lower ending)
    as Hext.
  { intros s. unfold _get_extension.
    change (s +:+ "." +:+ ending) with (s +:+ String "." ending).
    by rewrite ClassifierProps.contains_dot_app,
      ClassifierProps.rsplit_last_app. }
  assert (_get_extension name = "") as Hnone.
  { unfold _get_extension. by rewrite Hname. }
  unfold get_media_type, should_skip_file.
  rewrite !Hext, Hnone. repeat split; by vm_compute.
Qed.

Lemma classification_by_last_extension_witness :
  get_media_type ("a.thm" +:+ "." +:+ "JPG")
  = get_media_type ("b" +:+ "." +:+ "JPG")
  ∧ get_media_type "README" = None.
Proof.
  destruct (classification_by_last_extension "a.thm" "b" "JPG" "README")
    as (_ & Hsame & _ & _ & Hnone & _); [reflexivity|reflexivity|].
  by split.
Defined.

(** The three extension tables are pairwise disjoint, so the order of the
    tests in [get_media_type] does not matter: the media type is [photo]
    exactly for the photo extensions and [video] exactly for the video
    extensions, and a file that is skipped has no media type. *)
Theorem media_type_by_table (filename : string) :
  (get_media_type filename = Some "photo"
   ↔ _get_extension filename ∈ PHOTO_EXTENSIONS)
  ∧ (get_media_type filename = Some "video"
     ↔ _get_extension filename ∈ VIDEO_EXTENSIONS)
  ∧ (get_media_type filename = None
     ↔ (_get_extension filename ∉ PHOTO_EXTENSIONS)
       ∧ (_get_extension filename ∉ VIDEO_EXTENSIONS))
  ∧ (should_skip_file filename = true → get_media_type filename = None).
Proof.
  unfold get_media_type, should_skip_file.
  generalize (_get_extension filename). intros ext.
  assert (ext ∈ PHOTO_EXTENSIONS → ext ∉ SKIP_EXTENSIONS) as Hps.
  { unfold PHOTO_EXTENSIONS, SKIP_EXTENSIONS.
    rewrite !elem_of_list_to_set, !elem_of_cons, !elem_of_nil.
    intros Hin; repeat destruct Hin as [->|Hin]; try done;
      intros Hs; repeat destruct Hs as [Hs|Hs]; done. }
  assert (ext ∈ VIDEO_EXTENSIONS → ext ∉ SKIP_EXTENSIONS) as Hvs.
  { unfold VIDEO_EXTENSIONS, SKIP_EXTENSIONS.
    rewrite !elem_of_list_to_set, !elem_of_cons, !elem_of_nil.
    intros Hin; repeat destruct Hin as [->|Hin]; try done;
      intros Hs; repeat destruct Hs as [Hs|Hs]; done. }
  assert (ext ∈ PHOTO_EXTENSIONS → ext ∉ VIDEO_EXTENSIONS) as Hpv.
  { unfold PHOTO_EXTENSIONS, VIDEO_EXTENSIONS.
    rewrite !elem_of_list_to_set, !elem_of_cons, !elem_of_nil.
    intros Hin; repeat destruct Hin as [->|Hin]; try done;
      intros Hs; repeat destruct Hs as [Hs|Hs]; done. }
  destruct (bool_decide (ext ∈ SKIP_EXTENSIONS)) eqn:Hs;
    destruct (bool_decide (ext ∈ PHOTO_EXTENSIONS)) eqn:Hp;
    destruct (bool_decide (ext ∈ VIDEO_EXTENSIONS)) eqn:Hv;
    try apply bool_decide_eq_true in Hs;
    try apply bool_decide_eq_true in Hp;
    try apply bool_decide_eq_true in Hv;
    try apply bool_decide_eq_false in Hs;
    try apply bool_decide_eq_false in Hp;
    try apply bool_decide_eq_false in Hv;
    try (by destruct (Hps Hp)); try (by destruct (Hvs Hv));
    try (by destruct (Hpv Hp));
    repeat split; try done; try tauto; try (by intros [? ?]).
Qed.

Lemma media_type_by_table_witness : get_media_type "IMG_0001.THM" = None.
Proof.
  destruct (media_type_by_table "IMG_0001.THM") as (_ & _ & _ & Hskip).
  apply Hskip. reflexivity.
Defined.

End ClassifierExtras.

(* ===================================================================== *)
(** ** utils/exif_utils.py : device detection                            *)
(* ===================================================================== *)

Module ExifDevice.

Import ExifUtils.

(** [s.startswith(prefix)] *)
Fixpoint starts_with (prefix s : string) : bool :=
  match prefix, s with
  | EmptyString, _ => true
  | String a prefix', String b s' => Ascii.eqb a b && starts_with prefix' s'
  | String _ _, EmptyString => false
  end.

(** [needle in s] *)
Fixpoint contains (needle s : string) : bool :=
  starts_with needle s
  || match s with
     | EmptyString => false
     | String _ s' => contains needle s'
     end.

(** The two attributes [get_device_info] reads with
    [getattr(photo_info, name, None)]; a missing attribute is [None]. *)
Record CameraAttrs := mk_camera {
  camera_make : option string;
  camera_model : option string
}.

Record DeviceInfo := mk_device {
  make : option string;
  model : option string;
  is_iphone : bool
}.

Definition _is_apple_device (make model : option string) : bool :=
  if match make with
     | Some (String _ _ as m) => contains "apple" (lower m)
     | _ => false
     end
  then true
  else if match model with
          | Some (String _ _ as m) => contains "iphone" (lower m)
          | _ => false
          end
  then true
  else false.

Definition get_device_info (photo_info : CameraAttrs) : DeviceInfo :=
  let make := camera_make photo_info in
  let model := camera_model photo_info in
  mk_device make model (_is_apple_device make model).

Definition is_iphone_media (photo_info : CameraAttrs) : bool :=
  is_iphone (get_device_info photo_info).

End ExifDevice.

Module ExifDeviceProps.

Import ExifUtils ExifDevice.

Example apple_by_make :
  is_iphone_media (mk_camera (Some "Apple") (Some "iPad Pro")) = true.
Proof. reflexivity. Qed.
Example apple_by_model :
  is_iphone_media (mk_camera None (Some "iPhone 12 mini")) = true.
Proof. reflexivity. Qed.
Example not_apple :
  is_iphone_media (mk_camera (Some "SONY") (Some "ILCE-7M3")) = false.
Proof. reflexivity. Qed.
Example no_attributes : is_iphone_media (mk_camera None None) = false.
Proof. reflexivity. Qed.

Lemma append_cons c a b : String c a +:+ b = String c (a +:+ b).
Proof. reflexivity. Qed.

Lemma append_nil b : "" +:+ b = b.
Proof. reflexivity. Qed.

Lemma starts_with_spec prefix s :
  starts_with prefix s = true ↔ ∃ tail, s = prefix +:+ tail.
Proof.
  revert s. induction prefix as [|a prefix IH]; intros s; simpl.
  - split; [intros _; by exists s|done].
  - destruct s as [|b s].
    + split; [done|]. intros [tail Htail]. discriminate.
    + rewrite andb_true_iff, Ascii.eqb_eq, IH. split.
      * intros [-> [tail ->]]. by exists tail.
      * intros [tail Htail]. rewrite append_cons in Htail.
        injection Htail as -> ->. split; [done|by exists tail].
Qed.

Lemma contains_spec needle s :
  contains needle s = true ↔ ∃ before after, s = before +:+ needle +:+ after.
Proof.
  induction s as [|c s IH]; simpl.
  - rewrite orb_false_r, starts_with_spec. split.
    + intros [tail Htail]. by exists "", tail.
    + intros (before & after & Heq). destruct before; [by exists after|].
      discriminate.
  - rewrite orb_true_iff, starts_with_spec, IH. split.
    + intros [[tail Htail]|(before & after & ->)].
      * by exists "", tail.
      * by exists (String c before), after.
    + intros (before & after & Heq). destruct before as [|b before].
      * left. by exists after.
      * right. rewrite append_cons in Heq. injection Heq as -> ->.
        by exists before, after.
Qed.

Lemma lower_split s u v :
  lower s = u +:+ v →
  ∃ s1 s2, s = s1 +:+ s2 ∧ lower s1 = u ∧ lower s2 = v.
Proof.
  revert s. induction u as [|a u IH]; intros s Heq.
  - by exists "", s.
  - destruct s as [|c s]; [discriminate|].
    simpl in Heq. rewrite append_cons in Heq. injection Heq as Hc Hs.
    destruct (IH s Hs) as (s1 & s2 & -> & H1 & H2).
    exists (String c s1), s2. simpl. by rewrite Hc, H1.
Qed.

(** [needle] occurs in [s] when case is ignored. *)
Definition occurs_ignoring_case (needle s : string) : Prop :=
  ∃ before found after,
    s = before +:+ found +:+ after ∧ lower found = needle.

Lemma contains_lower needle s :
  contains needle (lower s) = true ↔ occurs_ignoring_case needle s.
Proof.
  rewrite contains_spec. unfold occurs_ignoring_case. split.
  - intros (before & after & Heq).
    apply lower_split in Heq as (s1 & s23 & -> & H1 & Heq).
    apply lower_split in Heq as (s2 & s3 & -> & H2 & H3).
    by exists s1, s2, s3.
  - intros (before & found & after & -> & Hfound).
    exists (lower before), (lower after).
    by rewrite !ClassifierProps.lower_app, Hfound.
Qed.

(** A device counts as an iPhone exactly when its make contains [apple]
    or its model contains [iphone], in any mixture of cases; a missing
    attribute contributes nothing, and either attribute alone suffices. *)
Theorem apple_device_spec (make model : option string) :
  _is_apple_device make model = true
  ↔ (∃ m, make = Some m ∧ occurs_ignoring_case "apple" m)
    ∨ (∃ m, model = Some m ∧ occurs_ignoring_case "iphone" m).
Proof.
  assert (∀ c rest (o : option string),
            (match o with
             | Some (String _ _ as m) => contains (String c rest) (lower m)
             | _ => false
             end = true)
            ↔ ∃ m, o = Some m ∧ occurs_ignoring_case (String c rest) m)
    as Hattr.
  { intros c rest [[|a m]|].
    - split; [done|]. intros (m & [= <-] & before & found & after & Heq & Hf).
      destruct before, found; discriminate.
    - rewrite contains_lower. split; [intros ?; by eexists|].
      by intros (m' & [= <-] & ?).
    - split; [done|]. by intros (m & ? & _). }
  unfold _is_apple_device.
  rewrite <- (Hattr "a"%char "pple" make), <- (Hattr "i"%char "phone" model).
  destruct (match make with Some (String _ _ as m) => _ | _ => false end),
    (match model with Some (String _ _ as m) => _ | _ => false end);
    intuition discriminate.
Qed.

(** [get_device_info] hands the two attributes back unchanged, and its
    verdict is the one of [_is_apple_device] on them. *)
Lemma get_device_info_fields photo_info :
  make (get_device_info photo_info) = camera_make photo_info
  ∧ model (get_device_info photo_info) = camera_model photo_info
  ∧ is_iphone_media photo_info
    = _is_apple_device (camera_make photo_info) (camera_model photo_info).
Proof. by repeat split. Qed.

End ExifDeviceProps.

(* ===================================================================== *)
(** ** utils/immich_client.py : listing the assets page by page          *)
(* ===================================================================== *)

Module ImmichPaging.

Local Open Scope Z_scope.

(** [assets[:limit]]: the first [limit] items, all but the last [-limit]
    when [limit] is negative. *)
Definition slice_to {A} (limit : Z) (assets : list A) : list A :=
  if limit <? 0 then take (Z.to_nat (Z.of_nat (length assets) + limit)) assets
  else take (Z.to_nat limit) assets.

(** [return assets[:limit] if limit else assets] *)
Definition truncate {A} (limit : Z) (assets : list A) : list A :=
  if limit =? 0 then assets else slice_to limit assets.

(** The [while True] loop.  [server size page] stands for the request
    with [params={"size": size, "page": page}], [raise_for_status()] and
    [response.json()]: the page, or the exception, which nothing catches.
    [fuel] bounds the number of requests; [None] means the bound was
    reached. *)
Fixpoint get_all_assets_loop {A} (fuel : nat)
    (server : Z → Z → outcome (list A)) (limit page : Z) (assets : list A)
    : option (outcome (list A)) :=
  match fuel with
  | O => None
  | S fuel' =>
      match server (Z.min limit 1000) page with
      | Raises e => Some (Raises e)
      | Returns [] => Some (Returns (truncate limit assets))
      | Returns ((_ :: _) as batch) =>
          let assets := assets ++ batch in
          if (Z.of_nat (length batch) <? 1000)
             || (Z.of_nat (length assets) >=? limit)
          then Some (Returns (truncate limit assets))
          else get_all_assets_loop fuel' server limit (page + 1) assets
      end
  end.

Definition get_all_assets {A} (server : Z → Z → outcome (list A))
    (limit : Z) : option (outcome (list A)) :=
  get_all_assets_loop (Z.to_nat (limit / 1000) + 1) server limit 1 [].

End ImmichPaging.

Module ImmichPagingProps.

Import ImmichPaging.
Local Open Scope Z_scope.

(** A server with 2500 assets, handed out a thousand a page. *)
Definition stock : list Z := seqZ 0 2500.

Definition paged_server (size page : Z) : outcome (list Z) :=
  Returns (take (Z.to_nat size) (drop (Z.to_nat ((page - 1) * size)) stock)).

Example list_1500 :
  get_all_assets paged_server 1500 = Some (Returns (seqZ 0 1500)).
Proof. vm_compute. reflexivity. Qed.
Example list_10 :
  get_all_assets paged_server 10 = Some (Returns (seqZ 0 10)).
Proof. vm_compute. reflexivity. Qed.
Example list_5000 :
  get_all_assets paged_server 5000 = Some (Returns stock).
Proof. vm_compute. reflexivity. Qed.

Lemma loop_terminates {A} fuel (server : Z → Z → outcome (list A))
    limit page assets :
  (0 < fuel)%nat →
  limit - Z.of_nat (length assets) ≤ 1000 * Z.of_nat fuel →
  ∃ r, get_all_assets_loop fuel server limit page assets = Some r.
Proof.
  revert page assets. induction fuel as [|fuel IH]; intros page assets Hpos Hm;
    [lia|].
  cbn [get_all_assets_loop].
  destruct (server (Z.min limit 1000) page) as [[|a batch]|e];
    [by eexists| |by eexists].
  cbv zeta.
  destruct ((_ <? 1000) || (_ >=? limit)) eqn:Hstop; [by eexists|].
  apply orb_false_iff in Hstop as [Hfull Hmore].
  apply Z.ltb_ge in Hfull. rewrite Z.geb_leb in Hmore.
  apply Z.leb_gt in Hmore. rewrite length_app in Hmore.
  apply IH.
  - destruct fuel; [|lia]. lia.
  - rewrite length_app. lia.
Qed.

Lemma loop_length {A} fuel (server : Z → Z → outcome (list A))
    limit page assets result :
  0 < limit →
  get_all_assets_loop fuel server limit page assets = Some (Returns result) →
  Z.of_nat (length result) ≤ limit.
Proof.
  intros Hlimit. revert page assets.
  assert (∀ l : list A, Z.of_nat (length (truncate limit l)) ≤ limit)
    as Htrunc.
  { intros l. unfold truncate, slice_to.
    assert ((limit =? 0) = false) as -> by (apply Z.eqb_neq; lia).
    assert ((limit <? 0) = false) as -> by (apply Z.ltb_ge; lia).
    rewrite length_take. lia. }
  induction fuel as [|fuel IH]; intros page assets; [done|].
  cbn [get_all_assets_loop].
  destruct (server (Z.min limit 1000) page) as [[|a batch]|e]; [| |done].
  - intros [= <-]. apply Htrunc.
  - cbv zeta. destruct ((_ <? 1000) || (_ >=? limit)).
    + intros [= <-]. apply Htrunc.
    + apply IH.
Qed.

(** Whatever the server answers, [get_all_assets] stops after at most
    [limit / 1000 + 1] requests.  With a positive [limit] it returns at
    most [limit] assets; with [limit = 0] it sends one request and returns
    that page whole. *)
Theorem get_all_assets_bounded {A} (server : Z → Z → outcome (list A))
    (limit : Z) :
  (∃ r, get_all_assets server limit = Some r)
  ∧ (∀ result, 0 < limit →
               get_all_assets server limit = Some (Returns result) →
               Z.of_nat (length result) ≤ limit)
  ∧ (limit = 0 → get_all_assets server limit = Some (server 0 1)).
Proof.
  unfold get_all_assets. split; [|split].
  - apply loop_terminates; [lia|].
    simpl. rewrite Nat2Z.inj_add.
    destruct (Z_lt_le_dec limit 0) as [Hneg|Hpos].
    + lia.
    + rewrite Z2Nat.id by (apply Z.div_pos; lia).
      pose proof (Z.mul_succ_div_gt limit 1000). lia.
  - intros result Hlimit. by apply loop_length.
  - intros ->. change (Z.to_nat (0 / 1000) + 1)%nat with 1%nat.
    cbn [get_all_assets_loop]. change (Z.min 0 1000) with 0.
    destruct (server 0 1) as [[|a batch]|e]; [done| |done].
    cbv zeta.
    assert ((Z.of_nat (length ([] ++ a :: batch)) >=? 0) = true) as ->
      by (rewrite Z.geb_leb; apply Z.leb_le; lia).
    by rewrite orb_true_r.
Qed.

Lemma get_all_assets_bounded_witness :
  Z.of_nat (length (seqZ 0 1500)) ≤ 1500
  ∧ get_all_assets paged_server 0 = Some (paged_server 0 1).
Proof.
  destruct (get_all_assets_bounded paged_server 1500) as (_ & Hlen & _).
  destruct (get_all_assets_bounded paged_server 0) as (_ & _ & Hzero).
  split.
  - apply Hlen; [lia|]. exact list_1500.
  - by apply Hzero.
Defined.

End ImmichPagingProps.
